(** * IP planner: the allocation engine of [tools/ip_planner.py]

    A shallow embedding of the planner's pure core: prefix-length
    arithmetic, overlap detection, sibling-subnet packing and the two
    search strategies ([build_plan] and [build_plan_with_rollover]).

    Python integers are unbounded, so they are [Z].  An
    [ipaddress.IPv4Network] is a pair of a 32-bit network address and a
    prefix length; the operations of the [ipaddress] module the planner
    calls ([overlaps], [subnets], [subnet_of], [in]) are written with the
    bit operations that module uses.  Exceptions are values of [exn];
    a function that may raise returns a [result]. *)

From Stdlib Require Import ZArith List Bool Lia Sorted.
Import ListNotations.

Local Open Scope Z_scope.

(** ** Exceptions *)

(** One constructor per [raise ValueError] site reachable from the planner's
    core, including the two of [IPv4Network.subnets]. *)
Inductive value_error : Type :=
| IPCountNotPositive          (* _next_power_of_two *)
| RangeTooLargeForIPv4        (* prefix_len_for_total_addresses *)
| InvalidPrefixComputed       (* prefix_len_for_total_addresses *)
| NewPrefixMustBeLonger       (* ipaddress: subnets *)
| PrefixLengthDiffInvalid     (* ipaddress: subnets *)
| PrefixLargerThanBase        (* first_free_subnet *)
| SubnetPrefixesOutsideVNet   (* allocate_two_subnets *)
| OctetSearchNeedsSlash16     (* _pool_for_octet_search *)
| OctetSearchUnsupportedPool  (* _pool_for_octet_search *)
| OctetSearchVNetTooLarge     (* _iter_third_then_second_octet_vnets *)
| StartThirdOctetOutOfRange   (* _iter_third_then_second_octet_vnets *)
| BaseOutsideAllowedPool.     (* _iter_third_then_second_octet_vnets *)

(** One constructor per [raise RuntimeError] site.  The last two raises of
    [build_plan_with_rollover] format the number of candidates tried and,
    when there is one, the last packing error into the message. *)
Inductive runtime_error (E : Type) : Type :=
| NoFreeNetwork               (* first_free_subnet *)
| UnableToAllocateTwoSubnets  (* allocate_two_subnets *)
| NoVNetSizeWorks             (* build_plan *)
| PoolCoveredByExisting       (* build_plan_with_rollover *)
| NoNonOverlappingVNet (candidates_tried : Z) (last_error : option E).

Arguments NoFreeNetwork {E}.
Arguments UnableToAllocateTwoSubnets {E}.
Arguments NoVNetSizeWorks {E}.
Arguments PoolCoveredByExisting {E}.
Arguments NoNonOverlappingVNet {E} candidates_tried last_error.

#[warnings="-register-all"]
Inductive exn : Type :=
| ValueError (why : value_error)
| RuntimeError (why : runtime_error exn)
| StopIteration.              (* next() on a generator that is done *)

Inductive result (A : Type) : Type :=
| Ok (a : A)
| Err (e : exn).

Arguments Ok {A} a.
Arguments Err {A} e.

Definition bind {A B : Type} (r : result A) (k : A -> result B) : result B :=
  match r with
  | Ok a => k a
  | Err e => Err e
  end.

Notation "x <- r ;; k" := (bind r (fun x => k))
  (at level 61, r at next level, right associativity).

Definition to_option {A : Type} (r : result A) : option A :=
  match r with Ok a => Some a | Err _ => None end.

(** The error kinds of the specification's error taxonomy, read on the
    raise sites: a count that is not positive or too large is [InvalidSize];
    a base outside the pools or a VNet size the octet strategy does not
    take is [UnsupportedRange]; the covered pool is [PoolExhausted]; a
    placement that was not found, a prefix larger than the base and
    subnet prefixes larger than the parent are [NoCapacity].  The sites the
    taxonomy does not name have no kind. *)
Inductive error_kind : Type :=
| InvalidSize | UnsupportedRange | NoCapacity | PoolExhausted.

Definition kind_of (e : exn) : option error_kind :=
  match e with
  | ValueError IPCountNotPositive => Some InvalidSize
  | ValueError RangeTooLargeForIPv4 => Some InvalidSize
  | ValueError InvalidPrefixComputed => Some InvalidSize
  | ValueError PrefixLargerThanBase => Some NoCapacity
  | ValueError SubnetPrefixesOutsideVNet => Some NoCapacity
  | ValueError OctetSearchNeedsSlash16 => Some UnsupportedRange
  | ValueError OctetSearchUnsupportedPool => Some UnsupportedRange
  | ValueError OctetSearchVNetTooLarge => Some UnsupportedRange
  | ValueError BaseOutsideAllowedPool => Some UnsupportedRange
  | ValueError _ => None
  | RuntimeError PoolCoveredByExisting => Some PoolExhausted
  | RuntimeError _ => Some NoCapacity
  | StopIteration => None
  end.

(** ** Python built-ins *)

(** [int.bit_length]: the number of bits of the absolute value. *)
Definition bit_length (n : Z) : Z :=
  if n =? 0 then 0 else Z.log2 (Z.abs n) + 1.

(** [range(start, stop, step)] for a step that is not zero, with the length
    CPython computes for it. *)
Definition py_range (start stop step : Z) : list Z :=
  let len :=
    if 0 <? step
    then (if start <? stop then (stop - start - 1) / step + 1 else 0)
    else (if stop <? start then (start - stop - 1) / (- step) + 1 else 0) in
  map (fun i => start + Z.of_nat i * step) (seq 0 (Z.to_nat len)).

(** ** The [ipaddress] module *)

Record IPv4Network : Type := mkNet {
  network_address : Z;
  prefixlen : Z
}.

Definition ALL_ONES : Z := 2 ^ 32 - 1.

(** [_ip_int_from_prefix]: the netmask of a prefix length. *)
Definition netmask_int (p : Z) : Z :=
  Z.lxor ALL_ONES (Z.shiftr ALL_ONES p).

Definition hostmask_int (p : Z) : Z :=
  Z.lxor (netmask_int p) ALL_ONES.

Definition netmask (n : IPv4Network) : Z := netmask_int (prefixlen n).
Definition hostmask (n : IPv4Network) : Z := hostmask_int (prefixlen n).

Definition broadcast_address (n : IPv4Network) : Z :=
  Z.lor (network_address n) (hostmask n).

(** [addr in net]. *)
Definition contains (n : IPv4Network) (ip : Z) : bool :=
  Z.land ip (netmask n) =? network_address n.

(** [a.overlaps(b)]. *)
Definition overlaps (a b : IPv4Network) : bool :=
  contains b (network_address a)
  || (contains b (broadcast_address a)
      || (contains a (network_address b)
          || contains a (broadcast_address b))).

(** [a.subnet_of(b)]. *)
Definition subnet_of (a b : IPv4Network) : bool :=
  (network_address b <=? network_address a)
  && (broadcast_address a <=? broadcast_address b).

(** [net.subnets(new_prefix=p)].  The generator raises, if it does, before
    its first item; so it is the list of its items or the exception.  The
    networks it builds from a well-formed [n] have no host bit set
    ([sub_range_inside]), so their constructor accepts them. *)
Definition subnets (n : IPv4Network) (new_prefix : Z)
  : result (list IPv4Network) :=
  if prefixlen n =? 32 then Ok [n]
  else if new_prefix <? prefixlen n then Err (ValueError NewPrefixMustBeLonger)
  else
    let prefixlen_diff := new_prefix - prefixlen n in
    let new_prefixlen := prefixlen n + prefixlen_diff in
    if 32 <? new_prefixlen then Err (ValueError PrefixLengthDiffInvalid)
    else
      let start := network_address n in
      let end_ := broadcast_address n + 1 in
      let step := Z.shiftr (hostmask n + 1) prefixlen_diff in
      Ok (map (fun new_addr => mkNet new_addr new_prefixlen)
              (py_range start end_ step)).

(** The class invariant of [IPv4Network]: a prefix length in [0, 32] and a
    32-bit address with no host bit set. *)
Definition wf (n : IPv4Network) : Prop :=
  0 <= prefixlen n <= 32
  /\ 0 <= network_address n < 2 ^ 32
  /\ network_address n mod 2 ^ (32 - prefixlen n) = 0.

(** ** PrefixMath *)

Definition _next_power_of_two (n : Z) : result Z :=
  if n <=? 0 then Err (ValueError IPCountNotPositive)
  else Ok (Z.shiftl 1 (bit_length (n - 1))).

Definition prefix_len_for_total_addresses (total_addresses : Z) : result Z :=
  total <- _next_power_of_two total_addresses ;;
  if 2 ^ 32 <? total then Err (ValueError RangeTooLargeForIPv4)
  else
    let prefix_len := 32 - (bit_length total - 1) in
    if (prefix_len <? 0) || (32 <? prefix_len)
    then Err (ValueError InvalidPrefixComputed)
    else Ok prefix_len.

Definition subnet_prefix_len_for_usable_ips (usable_ips : Z) : result Z :=
  let required_total := usable_ips + 5 in
  prefix_len_for_total_addresses required_total.

(** ** OverlapChecker *)

Fixpoint overlaps_any (candidate : IPv4Network) (used : list IPv4Network)
  : bool :=
  match used with
  | [] => false
  | u :: rest => if overlaps candidate u then true else overlaps_any candidate rest
  end.

(** ** BoundedRangeAllocator and SiblingSubnetPacker *)

Record Plan : Type := mkPlan {
  vnet : IPv4Network;
  webapp_subnet : IPv4Network;
  private_endpoint_subnet : IPv4Network
}.

Definition first_free_subnet (base : IPv4Network) (prefix_len : Z)
    (used : list IPv4Network) : result IPv4Network :=
  if prefix_len <? prefixlen base
  then Err (ValueError PrefixLargerThanBase)
  else
    candidates <- subnets base prefix_len ;;
    match find (fun candidate => negb (overlaps_any candidate used)) candidates with
    | Some candidate => Ok candidate
    | None => Err (RuntimeError NoFreeNetwork)
    end.

Definition allocate_two_subnets (vnet : IPv4Network)
    (webapp_prefix_len pe_prefix_len : Z)
  : result (IPv4Network * IPv4Network) :=
  if (webapp_prefix_len <? prefixlen vnet) || (pe_prefix_len <? prefixlen vnet)
  then Err (ValueError SubnetPrefixesOutsideVNet)
  else
    let first_prefix := Z.min webapp_prefix_len pe_prefix_len in
    let second_prefix := Z.max webapp_prefix_len pe_prefix_len in
    firsts <- subnets vnet first_prefix ;;
    match firsts with
    | [] => Err StopIteration
    | first :: _ =>
        let used := [first] in
        cands <- subnets vnet second_prefix ;;
        match find (fun cand => negb (overlaps_any cand used)) cands with
        | Some second =>
            if first_prefix =? webapp_prefix_len
            then Ok (first, second)
            else Ok (second, first)
        | None => Err (RuntimeError UnableToAllocateTwoSubnets)
        end
    end.

Fixpoint build_plan_loop (used_prefixes : list IPv4Network)
    (base : IPv4Network) (webapp_prefix_len pe_prefix_len : Z)
    (sizes : list Z) : result Plan :=
  match sizes with
  | [] => Err (RuntimeError NoVNetSizeWorks)
  | prefix_len :: rest =>
      match first_free_subnet base prefix_len used_prefixes with
      | Err (RuntimeError _) =>
          build_plan_loop used_prefixes base webapp_prefix_len pe_prefix_len rest
      | Err e => Err e
      | Ok vnet =>
          match allocate_two_subnets vnet webapp_prefix_len pe_prefix_len with
          | Ok (webapp, pe) => Ok (mkPlan vnet webapp pe)
          | Err (RuntimeError _) =>
              build_plan_loop used_prefixes base webapp_prefix_len
                pe_prefix_len rest
          | Err e => Err e
          end
      end
  end.

Definition build_plan (used_prefixes : list IPv4Network)
    (base : IPv4Network) (vnet_prefix_len webapp_prefix_len pe_prefix_len : Z)
  : result Plan :=
  build_plan_loop used_prefixes base webapp_prefix_len pe_prefix_len
    (py_range vnet_prefix_len (prefixlen base - 1) (-1)).

(** ** OctetRolloverAllocator *)

Definition ten_slash8 : IPv4Network := mkNet (10 * 2 ^ 24) 8.
Definition one_seventy_two_slash12 : IPv4Network :=
  mkNet (172 * 2 ^ 24 + 16 * 2 ^ 16) 12.

(** The pool and the [range] of second octets it allows, as
    [(start, stop)]. *)
Definition _pool_for_octet_search (start_base : IPv4Network)
  : result (IPv4Network * (Z * Z)) :=
  if negb (prefixlen start_base =? 16)
  then Err (ValueError OctetSearchNeedsSlash16)
  else
    let addr := network_address start_base in
    if contains ten_slash8 addr then Ok (ten_slash8, (0, 256))
    else if contains one_seventy_two_slash12 addr
    then Ok (one_seventy_two_slash12, (16, 32))
    else Err (ValueError OctetSearchUnsupportedPool).

(** The first and second fields of the dotted quad of an address. *)
Definition first_octet (addr : Z) : Z := addr / 2 ^ 24.
Definition second_octet (addr : Z) : Z := (addr / 2 ^ 16) mod 256.

(** [IPv4Network(f"{a}.{second}.{third}.0/24")]. *)
Definition bucket_of (a second third : Z) : IPv4Network :=
  mkNet (a * 2 ^ 24 + second * 2 ^ 16 + third * 2 ^ 8) 24.

(** The items one bucket contributes. *)
Definition bucket_vnets (vnet_prefix_len : Z) (bucket : IPv4Network)
  : result (list IPv4Network) :=
  if vnet_prefix_len =? 24 then Ok [bucket]
  else subnets bucket vnet_prefix_len.

Fixpoint iter_thirds (vnet_prefix_len a second : Z) (thirds : list Z)
  : result (list IPv4Network) :=
  match thirds with
  | [] => Ok []
  | third :: rest =>
      here <- bucket_vnets vnet_prefix_len (bucket_of a second third) ;;
      later <- iter_thirds vnet_prefix_len a second rest ;;
      Ok (here ++ later)
  end.

Fixpoint iter_seconds (vnet_prefix_len a start_second start_third_octet : Z)
    (seconds : list Z) : result (list IPv4Network) :=
  match seconds with
  | [] => Ok []
  | second :: rest =>
      let third_start :=
        if second =? start_second then start_third_octet else 0 in
      here <- iter_thirds vnet_prefix_len a second (py_range third_start 256 1) ;;
      later <- iter_seconds vnet_prefix_len a start_second start_third_octet rest ;;
      Ok (here ++ later)
  end.

(** The generator raises, if it does, before its first item: the checks come
    first, and [subnets] of a /24 bucket fails for every bucket or for
    none. *)
Definition _iter_third_then_second_octet_vnets (start_base : IPv4Network)
    (vnet_prefix_len start_third_octet : Z) : result (list IPv4Network) :=
  if vnet_prefix_len <? 24 then Err (ValueError OctetSearchVNetTooLarge)
  else
    found <- _pool_for_octet_search start_base ;;
    let '(pool, allowed_seconds) := found in
    if negb ((0 <=? start_third_octet) && (start_third_octet <=? 255))
    then Err (ValueError StartThirdOctetOutOfRange)
    else
      let a := first_octet (network_address start_base) in
      let start_second := second_octet (network_address start_base) in
      if negb ((fst allowed_seconds <=? start_second)
               && (start_second <? snd allowed_seconds))
      then Err (ValueError BaseOutsideAllowedPool)
      else
        iter_seconds vnet_prefix_len a start_second start_third_octet
          (py_range start_second (snd allowed_seconds) 1).

(** The loop of [build_plan_with_rollover]: a plan, or the loop's variables
    [(last_error, candidates_tried)] when the candidates run out. *)
Fixpoint rollover_loop (used_prefixes : list IPv4Network)
    (webapp_prefix_len pe_prefix_len : Z) (vnets : list IPv4Network)
    (last_error : option exn) (candidates_tried : Z)
  : Plan + (option exn * Z) :=
  match vnets with
  | [] => inr (last_error, candidates_tried)
  | vnet :: rest =>
      let candidates_tried := candidates_tried + 1 in
      if overlaps_any vnet used_prefixes
      then rollover_loop used_prefixes webapp_prefix_len pe_prefix_len rest
             last_error candidates_tried
      else
        match allocate_two_subnets vnet webapp_prefix_len pe_prefix_len with
        | Ok (webapp, pe) => inl (mkPlan vnet webapp pe)
        | Err ex =>
            rollover_loop used_prefixes webapp_prefix_len pe_prefix_len rest
              (Some ex) candidates_tried
        end
  end.

Definition build_plan_with_rollover (used_prefixes : list IPv4Network)
    (start_base : IPv4Network)
    (vnet_prefix_len webapp_prefix_len pe_prefix_len start_third_octet : Z)
  : result Plan :=
  vnets <- _iter_third_then_second_octet_vnets start_base vnet_prefix_len
             start_third_octet ;;
  match rollover_loop used_prefixes webapp_prefix_len pe_prefix_len vnets
          None 0 with
  | inl plan => Ok plan
  | inr (last_error, candidates_tried) =>
      found <- _pool_for_octet_search start_base ;;
      let '(pool, _) := found in
      if existsb (fun u => subnet_of pool u) used_prefixes
      then Err (RuntimeError PoolCoveredByExisting)
      else
        match last_error with
        | Some ex =>
            Err (RuntimeError (NoNonOverlappingVNet candidates_tried (Some ex)))
        | None =>
            Err (RuntimeError (NoNonOverlappingVNet candidates_tried None))
        end
  end.

(** ** Definitions of the statements

    The arithmetic reading of a network and of its sub-ranges, the packer
    and the candidate order as the specification words them, and the
    vocabulary of the theorems. *)

Definition size_of (p : Z) : Z := 2 ^ (32 - p).

(** The arithmetic reading of a network: the closed interval from its
    network address to [last_of]. *)
Definition last_of (n : IPv4Network) : Z :=
  network_address n + size_of (prefixlen n) - 1.

(** The sub-ranges of [parent] at prefix length [len], in increasing
    address order; none when [len] is not between the parent's prefix
    length and 32. *)
Definition sub_ranges (parent : IPv4Network) (len : Z) : list IPv4Network :=
  if (prefixlen parent <=? len) && (len <=? 32)
  then map (fun i => mkNet (network_address parent + Z.of_nat i * size_of len) len)
           (seq 0 (Z.to_nat (2 ^ (len - prefixlen parent))))
  else [].

(** [t] is the smallest power of two that is at least [n]. *)
Definition pow2_ceiling (n t : Z) : Prop :=
  (exists k, 0 <= k /\ t = 2 ^ k)
  /\ n <= t
  /\ forall j, 0 <= j -> n <= 2 ^ j -> t <= 2 ^ j.

(** The overlap test as the specification words it: the closed intervals
    intersect. *)
Definition overlaps_spec (a b : IPv4Network) : bool :=
  Z.max (network_address a) (network_address b)
  <=? Z.min (last_of a) (last_of b).

(** The sibling packer as the specification words it. *)
Definition allocateSiblings (parent : IPv4Network) (lenA lenB : Z)
  : option (IPv4Network * IPv4Network) :=
  let firstLen := Z.min lenA lenB in
  let secondLen := Z.max lenA lenB in
  if (lenA <? prefixlen parent) || (lenB <? prefixlen parent) then None
  else
    match sub_ranges parent firstLen with
    | [] => None
    | first :: _ =>
        match find (fun c => negb (overlaps_spec c first))
                   (sub_ranges parent secondLen) with
        | None => None
        | Some second =>
            if firstLen =? lenA then Some (first, second)
            else Some (second, first)
        end
    end.

(** One pass of the loop of [build_plan]: the first free parent at one
    prefix length and its packing. *)
Definition attempt (used : list IPv4Network) (base : IPv4Network)
    (a b prefix_len : Z) : result Plan :=
  vnet <- first_free_subnet base prefix_len used ;;
  match allocate_two_subnets vnet a b with
  | Ok (webapp, pe) => Ok (mkPlan vnet webapp pe)
  | Err e => Err e
  end.

(** The failures the loop of [build_plan] catches. *)
Definition capacity_failure {A : Type} (r : result A) : Prop :=
  exists why, r = Err (RuntimeError why).

(** The integers from [lo] to [hi - 1]. *)
Definition zrange (lo hi : Z) : list Z :=
  map (fun i => lo + Z.of_nat i) (seq 0 (Z.to_nat (hi - lo))).

(** The (second octet, third octet) pairs in the order the specification
    gives: the starting second octet with the third octets from the
    starting value to 255, then each later second octet below [stop] with
    the third octets from 0 to 255. *)
Definition grid_order (start_second stop start_third : Z) : list (Z * Z) :=
  map (pair start_second) (zrange start_third 256)
  ++ flat_map (fun s => map (pair s) (zrange 0 256))
              (zrange (start_second + 1) stop).

(** What one /24 block contributes: itself at prefix length 24, its
    sub-ranges at a longer one. *)
Definition block_candidates (vnet_prefix_len : Z) (block : IPv4Network)
  : list IPv4Network :=
  if vnet_prefix_len =? 24 then [block] else sub_ranges block vnet_prefix_len.

Definition octet_candidates (a start_second stop start_third vnet_prefix_len : Z)
  : list IPv4Network :=
  flat_map (fun st => block_candidates vnet_prefix_len
                        (bucket_of a (fst st) (snd st)))
           (grid_order start_second stop start_third).

(** The packing errors of the candidates that do not overlap [used], in the
    order of the candidates. *)
Definition packing_errors (used : list IPv4Network) (a b : Z)
    (vnets : list IPv4Network) : list exn :=
  flat_map
    (fun v =>
       if overlaps_any v used then []
       else match allocate_two_subnets v a b with
            | Ok _ => []
            | Err e => [e]
            end)
    vnets.

Definition last_packing_error (used : list IPv4Network) (a b : Z)
    (vnets : list IPv4Network) : option exn :=
  last (map Some (packing_errors used a b vnets)) None.

(** A dotted quad with its prefix length. *)
Definition cidr (a b c d p : Z) : IPv4Network :=
  mkNet (a * 2 ^ 24 + b * 2 ^ 16 + c * 2 ^ 8 + d) p.

(** The invariants of a plan. *)
Definition plan_invariant (used : list IPv4Network) (plan : Plan) : Prop :=
  wf (vnet plan) /\ wf (webapp_subnet plan) /\ wf (private_endpoint_subnet plan)
  /\ overlaps_any (vnet plan) used = false
  /\ subnet_of (webapp_subnet plan) (vnet plan) = true
  /\ subnet_of (private_endpoint_subnet plan) (vnet plan) = true
  /\ overlaps (webapp_subnet plan) (private_endpoint_subnet plan) = false.

(** * Properties *)

(** The invariant of a network given by its numbers. *)
Ltac wf_concrete := unfold wf; cbn; repeat split; lia.

(** ** Masks and address intervals *)

Lemma pow2_pos k : 0 <= k -> 0 < 2 ^ k.
Proof. intros. apply Z.pow_pos_nonneg; lia. Qed.

Lemma shiftr_ALL_ONES p : 0 <= p <= 32 -> Z.shiftr ALL_ONES p = 2 ^ (32 - p) - 1.
Proof.
  intros Hp. rewrite Z.shiftr_div_pow2 by lia. unfold ALL_ONES.
  replace (2 ^ 32) with (2 ^ (32 - p) * 2 ^ p)
    by (rewrite <- Z.pow_add_r by lia; f_equal; lia).
  pose proof (pow2_pos p ltac:(lia)). pose proof (pow2_pos (32 - p) ltac:(lia)).
  symmetry. apply Z.div_unique with (r := 2 ^ p - 1); nia.
Qed.

Lemma hostmask_int_eq p : 0 <= p <= 32 -> hostmask_int p = 2 ^ (32 - p) - 1.
Proof.
  intros Hp. unfold hostmask_int, netmask_int.
  rewrite (Z.lxor_comm ALL_ONES), Z.lxor_assoc, Z.lxor_nilpotent, Z.lxor_0_r.
  apply shiftr_ALL_ONES; assumption.
Qed.

Lemma testbit_below_pow2 a k n :
  0 <= a < 2 ^ k -> 0 <= k -> k <= n -> Z.testbit a n = false.
Proof.
  intros Ha Hk Hn. rewrite <- (Z.mod_small a (2 ^ k)) by assumption.
  apply Z.mod_pow2_bits_high. lia.
Qed.

(** Masking with the netmask clears the host bits. *)
Lemma land_netmask ip p :
  0 <= ip < 2 ^ 32 -> 0 <= p <= 32 ->
  Z.land ip (netmask_int p) = 2 ^ (32 - p) * (ip / 2 ^ (32 - p)).
Proof.
  intros Hip Hp. unfold netmask_int. rewrite shiftr_ALL_ONES by assumption.
  replace (2 ^ (32 - p) - 1) with (Z.ones (32 - p))
    by (rewrite Z.ones_equiv; lia).
  replace ALL_ONES with (Z.ones 32) by reflexivity.
  rewrite Z.mul_comm, <- Z.shiftr_div_pow2, <- Z.shiftl_mul_pow2 by lia.
  rewrite <- Z.ldiff_ones_r by lia.
  apply Z.bits_inj'. intros n Hn.
  rewrite Z.land_spec, Z.lxor_spec, Z.ldiff_spec.
  destruct (Z.lt_ge_cases n 32) as [Hlt | Hge].
  - rewrite (Z.ones_spec_low 32 n) by lia. 
    destruct (Z.testbit (Z.ones (32 - p)) n); reflexivity.
  - rewrite (testbit_below_pow2 ip 32 n) by lia. reflexivity.
Qed.

Lemma size_of_pos p : p <= 32 -> 0 < size_of p.
Proof. intros. apply pow2_pos. lia. Qed.

Lemma wf_aligned n :
  wf n -> exists m, network_address n = m * size_of (prefixlen n)
                    /\ 0 <= m < 2 ^ prefixlen n.
Proof.
  intros (Hp & Ha & Hm). pose proof (size_of_pos (prefixlen n) ltac:(lia)) as Hs.
  exists (network_address n / size_of (prefixlen n)).
  assert (Hsplit : 2 ^ 32 = 2 ^ prefixlen n * size_of (prefixlen n)).
  { unfold size_of. rewrite <- Z.pow_add_r by lia. f_equal. lia. }
  pose proof (Z.div_mod (network_address n) (size_of (prefixlen n)) ltac:(lia)) as Hd.
  fold (size_of (prefixlen n)) in Hm. rewrite Hm in Hd.
  split; [lia |]. split.
  - apply Z.div_pos; lia.
  - apply Z.div_lt_upper_bound; lia.
Qed.

Lemma wf_last_bound n : wf n -> network_address n <= last_of n < 2 ^ 32.
Proof.
  intros Hwf. destruct (wf_aligned n Hwf) as (m & Hm & Hr).
  destruct Hwf as (Hp & Ha & _).
  pose proof (size_of_pos (prefixlen n) ltac:(lia)) as Hs.
  assert (Hsplit : 2 ^ 32 = 2 ^ prefixlen n * size_of (prefixlen n)).
  { unfold size_of. rewrite <- Z.pow_add_r by lia. f_equal. lia. }
  unfold last_of. split; [lia |]. rewrite Hm. nia.
Qed.

Lemma broadcast_address_eq n : wf n -> broadcast_address n = last_of n.
Proof.
  intros Hwf. pose proof Hwf as (Hp & Ha & Hm).
  unfold broadcast_address, hostmask, last_of, size_of.
  rewrite hostmask_int_eq by assumption.
  replace (2 ^ (32 - prefixlen n) - 1) with (Z.ones (32 - prefixlen n))
    by (rewrite Z.ones_equiv; lia).
  assert (Hland : Z.land (network_address n) (Z.ones (32 - prefixlen n)) = 0)
    by (rewrite Z.land_ones by lia; assumption).
  rewrite <- Z.lxor_lor by assumption.
  rewrite <- Z.add_nocarry_lxor by assumption.
  rewrite Z.ones_equiv. lia.
Qed.

Lemma contains_iff n ip :
  wf n -> 0 <= ip < 2 ^ 32 ->
  contains n ip = true <-> network_address n <= ip <= last_of n.
Proof.
  intros Hwf Hip. destruct (wf_aligned n Hwf) as (m & Hm & Hr).
  destruct Hwf as (Hp & Ha & _).
  pose proof (size_of_pos (prefixlen n) ltac:(lia)) as Hs.
  unfold contains, netmask, last_of. rewrite land_netmask by assumption.
  fold (size_of (prefixlen n)). rewrite Z.eqb_eq, Hm.
  set (s := size_of (prefixlen n)) in *.
  pose proof (Z.div_mod ip s ltac:(lia)) as Hd.
  pose proof (Z.mod_pos_bound ip s Hs) as Hb.
  split; intros H.
  - assert (ip / s = m) by nia. subst m. lia.
  - assert (ip / s = m); [| subst m; lia].
    symmetry. apply Z.div_unique with (r := ip - m * s); lia.
Qed.

(** [overlaps] is the intersection test of the two closed intervals. *)
Lemma overlaps_intervals a b :
  wf a -> wf b ->
  overlaps a b =
  (Z.max (network_address a) (network_address b)
   <=? Z.min (last_of a) (last_of b)).
Proof.
  intros Ha Hb.
  pose proof (wf_last_bound a Ha) as Hla. pose proof (wf_last_bound b Hb) as Hlb.
  assert (Haa : 0 <= network_address a < 2 ^ 32) by apply Ha.
  assert (Hbb : 0 <= network_address b < 2 ^ 32) by apply Hb.
  unfold overlaps. rewrite !broadcast_address_eq by assumption.
  pose proof (contains_iff b (network_address a) Hb Haa) as H1.
  pose proof (contains_iff b (last_of a) Hb ltac:(lia)) as H2.
  pose proof (contains_iff a (network_address b) Ha Hbb) as H3.
  pose proof (contains_iff a (last_of b) Ha ltac:(lia)) as H4.
  destruct (contains b (network_address a)), (contains b (last_of a)),
    (contains a (network_address b)), (contains a (last_of b));
    cbn [orb]; symmetry;
    first [ apply Z.leb_le | apply Z.leb_gt ]; lia.
Qed.

Lemma overlaps_sym a b : overlaps a b = overlaps b a.
Proof.
  unfold overlaps.
  destruct (contains b (network_address a)), (contains b (broadcast_address a)),
    (contains a (network_address b)), (contains a (broadcast_address b));
    reflexivity.
Qed.

Lemma subnet_of_intervals a b :
  wf a -> wf b ->
  subnet_of a b = true <->
  network_address b <= network_address a /\ last_of a <= last_of b.
Proof.
  intros Ha Hb. unfold subnet_of.
  rewrite !broadcast_address_eq by assumption.
  rewrite andb_true_iff, !Z.leb_le. tauto.
Qed.

(** ** Ranges and sub-ranges *)

Lemma py_range_up start step k :
  0 < step -> 0 <= k ->
  py_range start (start + k * step) step
  = map (fun i => start + Z.of_nat i * step) (seq 0 (Z.to_nat k)).
Proof.
  intros Hs Hk. unfold py_range.
  replace (0 <? step) with true by (symmetry; apply Z.ltb_lt; lia).
  destruct (Z.eq_dec k 0) as [-> | Hk0].
  - replace (start <? start + 0 * step) with false
      by (symmetry; apply Z.ltb_ge; lia).
    reflexivity.
  - replace (start <? start + k * step) with true
      by (symmetry; apply Z.ltb_lt; nia).
    do 3 f_equal.
    replace (start + k * step - start - 1) with ((k - 1) * step + (step - 1))
      by lia.
    rewrite Z.div_add_l, Z.div_small by lia. lia.
Qed.

Lemma py_range_unit lo hi :
  py_range lo hi 1 = map (fun i => lo + Z.of_nat i) (seq 0 (Z.to_nat (hi - lo))).
Proof.
  destruct (Z.le_gt_cases lo hi) as [H | H].
  - replace hi with (lo + (hi - lo) * 1) at 1 by lia.
    rewrite py_range_up by lia. apply map_ext. intros; lia.
  - unfold py_range. cbn [Z.ltb Z.compare].
    replace (lo <? hi) with false by (symmetry; apply Z.ltb_ge; lia).
    replace (Z.to_nat (hi - lo)) with 0%nat by lia. reflexivity.
Qed.

Lemma py_range_down hi lo :
  py_range hi lo (-1)
  = map (fun i => hi - Z.of_nat i) (seq 0 (Z.to_nat (hi - lo))).
Proof.
  unfold py_range. cbn [Z.ltb Z.compare Z.opp].
  destruct (Z.ltb_spec lo hi) as [H | H].
  - rewrite Z.div_1_r. replace (hi - lo - 1 + 1) with (hi - lo) by lia.
    apply map_ext. intros; lia.
  - replace (Z.to_nat (hi - lo)) with 0%nat by lia. reflexivity.
Qed.

Lemma subnets_sub_ranges n len :
  wf n -> prefixlen n <= len <= 32 -> subnets n len = Ok (sub_ranges n len).
Proof.
  intros Hwf Hlen. pose proof Hwf as (Hp & Ha & Hm).
  unfold subnets, sub_ranges.
  replace ((prefixlen n <=? len) && (len <=? 32)) with true
    by (symmetry; apply andb_true_iff; split; apply Z.leb_le; lia).
  destruct (Z.eqb_spec (prefixlen n) 32) as [H32 | H32].
  - assert (len = 32) by lia. subst len. rewrite H32.
    destruct n as [a p]. cbn [prefixlen network_address] in *. subst p.
    change (Z.to_nat (2 ^ (32 - 32))) with 1%nat. cbn [seq map].
    f_equal. f_equal. f_equal. cbn [Z.of_nat]. lia.
  - replace (len <? prefixlen n) with false by (symmetry; apply Z.ltb_ge; lia).
    replace (prefixlen n + (len - prefixlen n)) with len by lia.
    replace (32 <? len) with false by (symmetry; apply Z.ltb_ge; lia).
    rewrite broadcast_address_eq by assumption.
    unfold hostmask. rewrite hostmask_int_eq by assumption.
    replace (2 ^ (32 - prefixlen n) - 1 + 1) with (2 ^ (32 - prefixlen n)) by lia.
    rewrite Z.shiftr_div_pow2 by lia.
    assert (Hsz : 2 ^ (32 - prefixlen n) = 2 ^ (len - prefixlen n) * size_of len).
    { unfold size_of. rewrite <- Z.pow_add_r by lia. f_equal. lia. }
    pose proof (size_of_pos len ltac:(lia)) as Hs.
    pose proof (pow2_pos (len - prefixlen n) ltac:(lia)) as Hk.
    assert (Hstep : 2 ^ (32 - prefixlen n) / 2 ^ (len - prefixlen n) = size_of len).
    { rewrite Hsz, Z.mul_comm. apply Z.div_mul. lia. }
    rewrite Hstep. unfold last_of. fold (size_of (prefixlen n)).
    replace (network_address n + size_of (prefixlen n) - 1 + 1)
      with (network_address n + 2 ^ (len - prefixlen n) * size_of len)
      by (unfold size_of at 2; lia).
    rewrite py_range_up by lia. rewrite map_map. reflexivity.
Qed.

Lemma subnets_host n len : prefixlen n = 32 -> subnets n len = Ok [n].
Proof. intros H. unfold subnets. rewrite H. reflexivity. Qed.

Lemma subnets_too_short n len :
  prefixlen n <> 32 -> len < prefixlen n ->
  subnets n len = Err (ValueError NewPrefixMustBeLonger).
Proof.
  intros H32 Hlen. unfold subnets.
  destruct (Z.eqb_spec (prefixlen n) 32); [contradiction |].
  replace (len <? prefixlen n) with true by (symmetry; apply Z.ltb_lt; lia).
  reflexivity.
Qed.

Lemma subnets_too_long n len :
  prefixlen n <> 32 -> prefixlen n <= len -> 32 < len ->
  subnets n len = Err (ValueError PrefixLengthDiffInvalid).
Proof.
  intros H32 Hlen Hlong. unfold subnets.
  destruct (Z.eqb_spec (prefixlen n) 32); [contradiction |].
  replace (len <? prefixlen n) with false by (symmetry; apply Z.ltb_ge; lia).
  replace (prefixlen n + (len - prefixlen n)) with len by lia.
  replace (32 <? len) with true by (symmetry; apply Z.ltb_lt; lia).
  reflexivity.
Qed.

(** ** PrefixMath *)

Lemma bit_length_nonneg n : 0 <= bit_length n.
Proof.
  unfold bit_length. destruct (n =? 0); [lia |].
  pose proof (Z.log2_nonneg (Z.abs n)). lia.
Qed.

Lemma bit_length_pow2 k : 0 <= k -> bit_length (2 ^ k) = k + 1.
Proof.
  intros Hk. pose proof (pow2_pos k Hk). unfold bit_length.
  destruct (Z.eqb_spec (2 ^ k) 0); [lia |].
  rewrite Z.abs_eq by lia. rewrite Z.log2_pow2 by assumption. reflexivity.
Qed.

(** [n - 1] fits in [bit_length (n - 1)] bits and in no fewer. *)
Lemma bit_length_pred_spec n :
  0 < n ->
  n <= 2 ^ bit_length (n - 1)
  /\ forall j, 0 <= j -> n <= 2 ^ j -> bit_length (n - 1) <= j.
Proof.
  intros Hn. unfold bit_length.
  destruct (Z.eqb_spec (n - 1) 0) as [H1 | H1].
  - split; [cbn; lia | intros; lia].
  - rewrite Z.abs_eq by lia.
    pose proof (Z.log2_spec (n - 1) ltac:(lia)) as [Hlo Hhi].
    pose proof (Z.log2_nonneg (n - 1)) as Hl.
    replace (Z.succ (Z.log2 (n - 1))) with (Z.log2 (n - 1) + 1) in Hhi by lia.
    split; [lia |]. intros j Hj Hle.
    assert (2 ^ Z.log2 (n - 1) < 2 ^ j) by lia.
    assert (Z.log2 (n - 1) < j) by (apply (Z.pow_lt_mono_r_iff 2); lia).
    lia.
Qed.

Lemma next_power_of_two_ok n :
  0 < n -> _next_power_of_two n = Ok (2 ^ bit_length (n - 1)).
Proof.
  intros Hn. unfold _next_power_of_two.
  replace (n <=? 0) with false by (symmetry; apply Z.leb_gt; lia).
  rewrite Z.shiftl_1_l. reflexivity.
Qed.

Lemma prefix_len_small n :
  0 < n -> bit_length (n - 1) <= 32 ->
  prefix_len_for_total_addresses n = Ok (32 - bit_length (n - 1)).
Proof.
  intros Hn Hb. pose proof (bit_length_nonneg (n - 1)) as H0.
  unfold prefix_len_for_total_addresses.
  rewrite next_power_of_two_ok by assumption. cbn [bind].
  assert (2 ^ bit_length (n - 1) <= 2 ^ 32) by (apply Z.pow_le_mono_r; lia).
  replace (2 ^ 32 <? 2 ^ bit_length (n - 1)) with false
    by (symmetry; apply Z.ltb_ge; lia).
  rewrite bit_length_pow2 by assumption.
  replace (32 - (bit_length (n - 1) + 1 - 1) <? 0) with false
    by (symmetry; apply Z.ltb_ge; lia).
  replace (32 <? 32 - (bit_length (n - 1) + 1 - 1)) with false
    by (symmetry; apply Z.ltb_ge; lia).
  cbn [orb]. f_equal. lia.
Qed.

Lemma prefix_len_large n :
  0 < n -> 32 < bit_length (n - 1) ->
  prefix_len_for_total_addresses n = Err (ValueError RangeTooLargeForIPv4).
Proof.
  intros Hn Hb. unfold prefix_len_for_total_addresses.
  rewrite next_power_of_two_ok by assumption. cbn [bind].
  assert (2 ^ 32 < 2 ^ bit_length (n - 1)) by (apply Z.pow_lt_mono_r; lia).
  replace (2 ^ 32 <? 2 ^ bit_length (n - 1)) with true
    by (symmetry; apply Z.ltb_lt; lia).
  reflexivity.
Qed.

Lemma prefix_len_nonpositive n :
  n <= 0 ->
  prefix_len_for_total_addresses n = Err (ValueError IPCountNotPositive).
Proof.
  intros Hn. unfold prefix_len_for_total_addresses, _next_power_of_two.
  replace (n <=? 0) with true by (symmetry; apply Z.leb_le; lia).
  reflexivity.
Qed.

Lemma prefix_len_inv n p :
  prefix_len_for_total_addresses n = Ok p ->
  0 < n /\ bit_length (n - 1) <= 32 /\ p = 32 - bit_length (n - 1).
Proof.
  intros H. destruct (Z.le_gt_cases n 0) as [Hn | Hn].
  - rewrite prefix_len_nonpositive in H by assumption. discriminate.
  - destruct (Z.le_gt_cases (bit_length (n - 1)) 32) as [Hb | Hb].
    + rewrite prefix_len_small in H by assumption. inversion H. repeat split; lia.
    + rewrite prefix_len_large in H by assumption. discriminate.
Qed.

Lemma pow2_ceiling_bit_length n :
  0 < n -> pow2_ceiling n (2 ^ bit_length (n - 1)).
Proof.
  intros Hn. destruct (bit_length_pred_spec n Hn) as [Hle Hmin].
  pose proof (bit_length_nonneg (n - 1)).
  split; [eexists; split; [| reflexivity]; assumption |].
  split; [assumption |].
  intros j Hj Hnj. apply Z.pow_le_mono_r; [lia | auto].
Qed.

Lemma pow2_ceiling_unique n t u :
  pow2_ceiling n t -> pow2_ceiling n u -> t = u.
Proof.
  intros ((k & Hk & ->) & Hnt & Ht) ((j & Hj & ->) & Hnu & Hu).
  pose proof (Ht j Hj Hnu). pose proof (Hu k Hk Hnt). lia.
Qed.

(** ** Sub-ranges of a well-formed network *)

Lemma size_of_split p len :
  p <= len <= 32 -> size_of p = 2 ^ (len - p) * size_of len.
Proof.
  intros H. unfold size_of. rewrite <- Z.pow_add_r by lia. f_equal. lia.
Qed.

Lemma in_sub_ranges n len c :
  In c (sub_ranges n len) <->
  prefixlen n <= len <= 32
  /\ exists i, 0 <= i < 2 ^ (len - prefixlen n)
               /\ c = mkNet (network_address n + i * size_of len) len.
Proof.
  unfold sub_ranges.
  destruct (Z.leb_spec (prefixlen n) len) as [H1 | H1];
    destruct (Z.leb_spec len 32) as [H2 | H2]; cbn [andb];
    try (split; [intros [] | intros (? & _); lia]).
  rewrite in_map_iff. split.
  - intros (i & <- & Hi). apply in_seq in Hi. split; [lia |].
    exists (Z.of_nat i). split; [lia | reflexivity].
  - intros (_ & i & Hi & ->). exists (Z.to_nat i). split.
    + rewrite Z2Nat.id by lia. reflexivity.
    + apply in_seq. lia.
Qed.

Lemma sub_ranges_head n len :
  prefixlen n <= len <= 32 ->
  exists rest, sub_ranges n len = mkNet (network_address n) len :: rest.
Proof.
  intros H. unfold sub_ranges.
  replace ((prefixlen n <=? len) && (len <=? 32)) with true
    by (symmetry; apply andb_true_iff; split; apply Z.leb_le; lia).
  pose proof (pow2_pos (len - prefixlen n) ltac:(lia)) as Hk.
  destruct (Z.to_nat (2 ^ (len - prefixlen n))) as [| k] eqn:E; [lia |].
  cbn [seq map]. eexists. f_equal. f_equal. cbn [Z.of_nat]. lia.
Qed.

(** The [i]-th sub-range is well formed and lies inside its parent. *)
Lemma sub_range_inside n len i :
  wf n -> prefixlen n <= len <= 32 -> 0 <= i < 2 ^ (len - prefixlen n) ->
  let c := mkNet (network_address n + i * size_of len) len in
  wf c /\ network_address n <= network_address c /\ last_of c <= last_of n.
Proof.
  intros Hwf Hlen Hi c. destruct (wf_aligned n Hwf) as (m & Hm & Hr).
  pose proof (wf_last_bound n Hwf) as Hlast. pose proof Hwf as (Hp & Ha & _).
  pose proof (size_of_pos len ltac:(lia)) as Hs.
  pose proof (size_of_split (prefixlen n) len Hlen) as Hsplit.
  unfold last_of in *. subst c. cbn [network_address prefixlen].
  assert (Hend : network_address n + i * size_of len + size_of len
                 <= network_address n + size_of (prefixlen n)) by nia.
  repeat split; cbn [network_address prefixlen]; try lia; try nia.
  fold (size_of len). rewrite Hm, Hsplit.
  replace (m * (2 ^ (len - prefixlen n) * size_of len) + i * size_of len)
    with ((m * 2 ^ (len - prefixlen n) + i) * size_of len) by ring.
  apply Z.mod_mul. lia.
Qed.

Lemma sub_ranges_inside n len c :
  wf n -> In c (sub_ranges n len) ->
  wf c /\ prefixlen c = len
  /\ network_address n <= network_address c /\ last_of c <= last_of n.
Proof.
  intros Hwf Hin. apply in_sub_ranges in Hin as (Hlen & i & Hi & ->).
  destruct (sub_range_inside n len i Hwf Hlen Hi) as (H1 & H2 & H3).
  repeat split; try apply H1; assumption.
Qed.

Lemma sub_ranges_same n :
  wf n -> sub_ranges n (prefixlen n) = [n].
Proof.
  intros (Hp & _). unfold sub_ranges.
  replace ((prefixlen n <=? prefixlen n) && (prefixlen n <=? 32)) with true
    by (symmetry; apply andb_true_iff; split; apply Z.leb_le; lia).
  rewrite Z.sub_diag. change (Z.to_nat (2 ^ 0)) with 1%nat. cbn [seq map].
  destruct n as [a p]. cbn [network_address prefixlen Z.of_nat].
  do 2 f_equal. lia.
Qed.

(** What [subnets] yields when it does not raise. *)
Lemma subnets_ok_inv n len l :
  wf n -> subnets n len = Ok l ->
  (prefixlen n = 32 /\ l = [n])
  \/ (prefixlen n <= len <= 32 /\ l = sub_ranges n len).
Proof.
  intros Hwf H. destruct (Z.eq_dec (prefixlen n) 32) as [H32 | H32].
  - rewrite subnets_host in H by assumption. inversion H. auto.
  - destruct (Z.lt_ge_cases len (prefixlen n)) as [Hs | Hs].
    { rewrite subnets_too_short in H by assumption. discriminate. }
    destruct (Z.lt_ge_cases 32 len) as [Hl | Hl].
    { rewrite subnets_too_long in H by assumption. discriminate. }
    rewrite subnets_sub_ranges in H by (assumption || lia).
    inversion H. right. split; [lia | reflexivity].
Qed.

Lemma subnets_inside n len l c :
  wf n -> subnets n len = Ok l -> In c l ->
  wf c /\ network_address n <= network_address c /\ last_of c <= last_of n.
Proof.
  intros Hwf H Hin.
  destruct (subnets_ok_inv n len l Hwf H) as [(_ & ->) | (_ & ->)].
  - destruct Hin as [<- | []]. split; [assumption | split; lia].
  - destruct (sub_ranges_inside n len c Hwf Hin) as (H1 & _ & H2 & H3). auto.
Qed.

Lemma overlaps_refl n : wf n -> overlaps n n = true.
Proof.
  intros Hwf. rewrite overlaps_intervals by assumption.
  pose proof (wf_last_bound n Hwf). apply Z.leb_le. lia.
Qed.

Lemma inside_overlaps c n :
  wf c -> wf n ->
  network_address n <= network_address c -> last_of c <= last_of n ->
  overlaps c n = true.
Proof.
  intros Hc Hn H1 H2. rewrite overlaps_intervals by assumption.
  pose proof (wf_last_bound c Hc). apply Z.leb_le. lia.
Qed.

Lemma overlaps_any_single c u : overlaps_any c [u] = overlaps c u.
Proof. cbn. destruct (overlaps c u); reflexivity. Qed.

Lemma overlaps_any_false c used :
  overlaps_any c used = false <-> Forall (fun u => overlaps c u = false) used.
Proof.
  induction used as [| u used IH]; cbn.
  - split; [constructor | reflexivity].
  - destruct (overlaps c u) eqn:E.
    + split; [discriminate | intros H; inversion H; congruence].
    + rewrite IH. split; [intros; constructor; assumption
                         | intros H; inversion H; assumption].
Qed.

(** ** SiblingSubnetPacker *)

Lemma find_none_all {A : Type} (P : A -> bool) (l : list A) :
  (forall x, In x l -> P x = false) -> find P l = None.
Proof.
  induction l as [| x l IH]; intros H; cbn; [reflexivity |].
  rewrite (H x) by (left; reflexivity). apply IH. intros y Hy. apply H. now right.
Qed.

Lemma find_ext_in {A : Type} (P Q : A -> bool) (l : list A) :
  (forall x, In x l -> P x = Q x) -> find P l = find Q l.
Proof.
  induction l as [| x l IH]; intros H; cbn; [reflexivity |].
  rewrite (H x) by (left; reflexivity). destruct (Q x); [reflexivity |].
  apply IH. intros y Hy. apply H. now right.
Qed.

(** The first item of [map f (seq s k)] that satisfies [P]. *)
Lemma find_map_seq {A : Type} (f : nat -> A) (P : A -> bool) (i0 : nat) :
  forall s k,
    (i0 < k)%nat ->
    (forall i, (i < i0)%nat -> P (f (s + i)%nat) = false) ->
    P (f (s + i0)%nat) = true ->
    find P (map f (seq s k)) = Some (f (s + i0)%nat).
Proof.
  induction i0 as [| i0 IH]; intros s k Hk Hbefore Hat.
  - destruct k as [| k]; [lia |]. cbn [seq map find].
    rewrite Nat.add_0_r in Hat. rewrite Hat. now rewrite Nat.add_0_r.
  - destruct k as [| k]; [lia |]. cbn [seq map find].
    pose proof (Hbefore 0%nat ltac:(lia)) as H0. rewrite Nat.add_0_r in H0.
    rewrite H0. replace (s + S i0)%nat with (S s + i0)%nat in * by lia.
    apply IH; [lia | | assumption].
    intros i Hi. replace (S s + i)%nat with (s + S i)%nat by lia.
    apply Hbefore. lia.
Qed.

Lemma allocate_outside vnet a b :
  a < prefixlen vnet \/ b < prefixlen vnet ->
  allocate_two_subnets vnet a b = Err (ValueError SubnetPrefixesOutsideVNet).
Proof.
  intros H. unfold allocate_two_subnets.
  replace ((a <? prefixlen vnet) || (b <? prefixlen vnet)) with true;
    [reflexivity |].
  symmetry. apply orb_true_iff. rewrite !Z.ltb_lt. assumption.
Qed.

Lemma allocate_guard_passed vnet a b :
  prefixlen vnet <= a -> prefixlen vnet <= b ->
  (a <? prefixlen vnet) || (b <? prefixlen vnet) = false.
Proof. intros. apply orb_false_iff. rewrite !Z.ltb_ge. lia. Qed.

(** The overlap of the [i]-th sub-range at the longer prefix with the first
    sub-range at the shorter one. *)
Lemma overlaps_first n mn mx i :
  wf n -> prefixlen n <= mn -> mn <= mx -> mx <= 32 ->
  0 <= i < 2 ^ (mx - prefixlen n) ->
  overlaps (mkNet (network_address n + i * size_of mx) mx)
           (mkNet (network_address n) mn)
  = (i <? 2 ^ (mx - mn)).
Proof.
  intros Hwf H1 H2 H3 Hi.
  destruct (sub_range_inside n mx i Hwf ltac:(lia) Hi) as (Hc & _ & _).
  pose proof (pow2_pos (mn - prefixlen n) ltac:(lia)) as Hk.
  destruct (sub_range_inside n mn 0 Hwf ltac:(lia) ltac:(lia)) as (Hf & _ & _).
  cbn [Z.mul] in Hf. rewrite Z.add_0_r in Hf.
  rewrite overlaps_intervals by assumption.
  unfold last_of. cbn [network_address prefixlen].
  pose proof (size_of_pos mx ltac:(lia)) as Hs.
  pose proof (size_of_split mn mx ltac:(lia)) as Hsplit. rewrite Hsplit.
  destruct (Z.ltb_spec i (2 ^ (mx - mn))); [apply Z.leb_le | apply Z.leb_gt]; nia.
Qed.

Lemma allocate_fits vnet a b :
  wf vnet -> prefixlen vnet < Z.min a b -> Z.max a b <= 32 ->
  allocate_two_subnets vnet a b =
  let first := mkNet (network_address vnet) (Z.min a b) in
  let second :=
    mkNet (network_address vnet + size_of (Z.min a b)) (Z.max a b) in
  if Z.min a b =? a then Ok (first, second) else Ok (second, first).
Proof.
  intros Hwf Hmin Hmax. pose proof Hwf as (Hp & _).
  set (mn := Z.min a b) in *. set (mx := Z.max a b) in *.
  assert (Hmm : mn <= mx) by (subst mn mx; lia).
  unfold allocate_two_subnets.
  rewrite allocate_guard_passed by (subst mn; lia).
  fold mn mx. rewrite !subnets_sub_ranges by (assumption || lia).
  cbn [bind]. destruct (sub_ranges_head vnet mn ltac:(lia)) as (rest & ->).
  cbn zeta.
  assert (Hfind :
    find (fun cand => negb (overlaps_any cand [mkNet (network_address vnet) mn]))
         (sub_ranges vnet mx)
    = Some (mkNet (network_address vnet + size_of mn) mx)).
  { unfold sub_ranges.
    replace ((prefixlen vnet <=? mx) && (mx <=? 32)) with true
      by (symmetry; apply andb_true_iff; split; apply Z.leb_le; lia).
    pose proof (pow2_pos (mx - mn) ltac:(lia)) as Hk.
    assert (Hlt : 2 ^ (mx - mn) < 2 ^ (mx - prefixlen vnet))
      by (apply Z.pow_lt_mono_r; lia).
    rewrite (find_map_seq _ _ (Z.to_nat (2 ^ (mx - mn)))).
    - cbn [Nat.add]. rewrite Z2Nat.id by lia. do 2 f_equal.
      rewrite (size_of_split mn mx) by lia. reflexivity.
    - lia.
    - intros i Hi. cbn [Nat.add]. rewrite overlaps_any_single.
      rewrite overlaps_first by (assumption || lia).
      replace (Z.of_nat i <? 2 ^ (mx - mn)) with true
        by (symmetry; apply Z.ltb_lt; lia).
      reflexivity.
    - cbn [Nat.add]. rewrite overlaps_any_single.
      rewrite overlaps_first by (assumption || lia).
      replace (Z.of_nat (Z.to_nat (2 ^ (mx - mn))) <? 2 ^ (mx - mn)) with false
        by (symmetry; apply Z.ltb_ge; lia).
      reflexivity. }
  rewrite Hfind. reflexivity.
Qed.

Lemma allocate_full vnet a b :
  wf vnet -> prefixlen vnet <= a <= 32 -> prefixlen vnet <= b <= 32 ->
  Z.min a b = prefixlen vnet ->
  allocate_two_subnets vnet a b = Err (RuntimeError UnableToAllocateTwoSubnets).
Proof.
  intros Hwf Ha Hb Hmin. unfold allocate_two_subnets.
  rewrite allocate_guard_passed by lia.
  rewrite Hmin. rewrite !subnets_sub_ranges by (assumption || lia).
  cbn [bind]. rewrite sub_ranges_same by assumption.
  rewrite find_none_all; [reflexivity |].
  intros c Hc. rewrite overlaps_any_single.
  destruct (sub_ranges_inside vnet _ c Hwf Hc) as (Hwc & _ & H1 & H2).
  rewrite inside_overlaps by assumption. reflexivity.
Qed.

Lemma sub_ranges_out n len :
  32 < len -> sub_ranges n len = [].
Proof.
  intros H. unfold sub_ranges.
  replace (len <=? 32) with false by (symmetry; apply Z.leb_gt; lia).
  now rewrite andb_false_r.
Qed.

Lemma sorted_map_seq {A : Type} (R : A -> A -> Prop) (f : nat -> A) :
  (forall i j, (i < j)%nat -> R (f i) (f j)) ->
  forall k s, StronglySorted R (map f (seq s k)).
Proof.
  intros HR. induction k as [| k IH]; intros s; cbn [seq map].
  - constructor.
  - constructor; [apply IH |].
    apply Forall_forall. intros x Hx. apply in_map_iff in Hx as (j & <- & Hj).
    apply in_seq in Hj. apply HR. lia.
Qed.

(** Sub-ranges come in increasing base-address order. *)
Lemma sub_ranges_increasing n len :
  StronglySorted (fun x y => network_address x < network_address y)
                 (sub_ranges n len).
Proof.
  unfold sub_ranges.
  destruct ((prefixlen n <=? len) && (len <=? 32)) eqn:E; [| constructor].
  apply andb_true_iff in E as (_ & E). apply Z.leb_le in E.
  apply sorted_map_seq. intros i j Hij. cbn [network_address].
  pose proof (size_of_pos len E). nia.
Qed.

Lemma allocate_refines_spec parent lenA lenB :
  wf parent ->
  to_option (allocate_two_subnets parent lenA lenB)
  = allocateSiblings parent lenA lenB.
Proof.
  intros Hwf. pose proof Hwf as (Hp & _).
  unfold allocateSiblings.
  destruct ((lenA <? prefixlen parent) || (lenB <? prefixlen parent)) eqn:G.
  { apply orb_true_iff in G. rewrite !Z.ltb_lt in G.
    rewrite allocate_outside by assumption. reflexivity. }
  apply orb_false_iff in G as (G1 & G2). apply Z.ltb_ge in G1, G2.
  set (mn := Z.min lenA lenB). set (mx := Z.max lenA lenB).
  assert (Hmm : prefixlen parent <= mn <= mx) by (subst mn mx; lia).
  unfold allocate_two_subnets. rewrite allocate_guard_passed by assumption.
  fold mn mx.
  assert (Hsame : forall first l,
    wf first -> (forall c, In c l -> wf c) ->
    find (fun cand => negb (overlaps_any cand [first])) l
    = find (fun c => negb (overlaps_spec c first)) l).
  { intros first l Hf Hl. apply find_ext_in. intros c Hc.
    rewrite overlaps_any_single, overlaps_intervals by auto. reflexivity. }
  destruct (Z.eq_dec (prefixlen parent) 32) as [H32 | H32].
  - (* a /32 parent yields itself whatever the new prefix *)
    rewrite !subnets_host by assumption. cbn [bind find].
    rewrite overlaps_any_single, overlaps_refl by assumption. cbn [negb to_option].
    destruct (Z.le_gt_cases mn 32) as [Hmn | Hmn].
    + assert (mn = prefixlen parent) by lia.
      replace mn with (prefixlen parent) by lia.
      rewrite sub_ranges_same by assumption.
      destruct (Z.le_gt_cases mx 32) as [Hmx | Hmx].
      * replace mx with (prefixlen parent) by lia.
        rewrite sub_ranges_same by assumption. cbn [find].
        unfold overlaps_spec. pose proof (wf_last_bound parent Hwf).
        replace (Z.max (network_address parent) (network_address parent)
                 <=? Z.min (last_of parent) (last_of parent)) with true
          by (symmetry; apply Z.leb_le; lia).
        reflexivity.
      * rewrite (sub_ranges_out parent mx) by assumption. reflexivity.
    + rewrite (sub_ranges_out parent mn) by assumption. reflexivity.
  - destruct (Z.le_gt_cases mn 32) as [Hmn | Hmn].
    + rewrite (subnets_sub_ranges parent mn) by (assumption || lia).
      cbn [bind]. destruct (sub_ranges_head parent mn ltac:(lia)) as (rest & E).
      rewrite E.
      assert (Hf : wf (mkNet (network_address parent) mn)).
      { apply (sub_ranges_inside parent mn); [assumption |].
        rewrite E. left. reflexivity. }
      destruct (Z.le_gt_cases mx 32) as [Hmx | Hmx].
      * rewrite (subnets_sub_ranges parent mx) by (assumption || lia).
        cbn [bind].
        rewrite (Hsame _ (sub_ranges parent mx) Hf)
          by (intros c Hc; apply (sub_ranges_inside parent mx c Hwf Hc)).
        destruct (find _ (sub_ranges parent mx)); [| reflexivity].
        destruct (mn =? lenA); reflexivity.
      * rewrite subnets_too_long by lia.
        rewrite (sub_ranges_out parent mx) by assumption. reflexivity.
    + rewrite subnets_too_long by lia.
      rewrite (sub_ranges_out parent mn) by assumption. reflexivity.
Qed.

(** ** First fit *)

(** [find] returns the first item that satisfies the test. *)
Lemma find_first_iff {A : Type} (P : A -> bool) (l : list A) (c : A) :
  find P l = Some c <->
  exists pre post,
    l = pre ++ c :: post /\ Forall (fun x => P x = false) pre /\ P c = true.
Proof.
  induction l as [| x l IH]; cbn [find].
  - split; [discriminate |]. intros (pre & post & H & _).
    destruct pre; discriminate.
  - destruct (P x) eqn:E.
    + split.
      * intros H. inversion H. subst. exists [], l. auto.
      * intros (pre & post & H & Hpre & Hc). destruct pre as [| y pre].
        -- inversion H. reflexivity.
        -- inversion H. subst. inversion Hpre. congruence.
    + rewrite IH. split.
      * intros (pre & post & -> & Hpre & Hc). exists (x :: pre), post. auto.
      * intros (pre & post & H & Hpre & Hc). destruct pre as [| y pre].
        -- inversion H. congruence.
        -- inversion H. subst. inversion Hpre. eauto.
Qed.

Lemma find_none_iff {A : Type} (P : A -> bool) (l : list A) :
  find P l = None <-> forall x, In x l -> P x = false.
Proof.
  split; [apply find_none | apply find_none_all].
Qed.

Lemma overlaps_any_true c used :
  overlaps_any c used = true <-> exists u, In u used /\ overlaps c u = true.
Proof.
  induction used as [| u used IH]; cbn.
  - split; [discriminate | intros (? & [] & _)].
  - destruct (overlaps c u) eqn:E.
    + split; [eauto | reflexivity].
    + rewrite IH. split.
      * intros (v & Hv & Ho). eauto.
      * intros (v & [-> | Hv] & Ho); [congruence | eauto].
Qed.

Lemma first_free_subnet_too_large base prefix_len used :
  prefix_len < prefixlen base ->
  first_free_subnet base prefix_len used = Err (ValueError PrefixLargerThanBase).
Proof.
  intros H. unfold first_free_subnet.
  replace (prefix_len <? prefixlen base) with true
    by (symmetry; apply Z.ltb_lt; lia).
  reflexivity.
Qed.

Lemma first_free_subnet_find base prefix_len used :
  wf base -> prefixlen base <= prefix_len <= 32 ->
  first_free_subnet base prefix_len used =
  match find (fun c => negb (overlaps_any c used)) (sub_ranges base prefix_len) with
  | Some c => Ok c
  | None => Err (RuntimeError NoFreeNetwork)
  end.
Proof.
  intros Hwf H. unfold first_free_subnet.
  replace (prefix_len <? prefixlen base) with false
    by (symmetry; apply Z.ltb_ge; lia).
  rewrite subnets_sub_ranges by assumption. reflexivity.
Qed.

(** What a successful [first_free_subnet] returns. *)
Lemma first_free_subnet_ok base prefix_len used c :
  wf base -> first_free_subnet base prefix_len used = Ok c ->
  wf c /\ network_address base <= network_address c
  /\ last_of c <= last_of base /\ overlaps_any c used = false.
Proof.
  intros Hwf H. unfold first_free_subnet in H.
  destruct (prefix_len <? prefixlen base); [discriminate |].
  destruct (subnets base prefix_len) as [l |] eqn:El; [| discriminate].
  cbn [bind] in H.
  destruct (find _ l) as [c' |] eqn:Ef; [| discriminate].
  inversion H. subst c'. apply find_some in Ef as (Hin & Hfree).
  destruct (subnets_inside base prefix_len l c Hwf El Hin) as (H1 & H2 & H3).
  apply negb_true_iff in Hfree. auto.
Qed.

(** What a successful packing returns. *)
Lemma allocate_ok_sound vnet a b w pe :
  wf vnet -> allocate_two_subnets vnet a b = Ok (w, pe) ->
  wf w /\ wf pe
  /\ subnet_of w vnet = true /\ subnet_of pe vnet = true
  /\ overlaps w pe = false.
Proof.
  intros Hwf H. unfold allocate_two_subnets in H.
  destruct ((a <? prefixlen vnet) || (b <? prefixlen vnet)); [discriminate |].
  destruct (subnets vnet (Z.min a b)) as [l1 |] eqn:E1; [| discriminate].
  cbn [bind] in H. destruct l1 as [| first rest]; [discriminate |].
  destruct (subnets vnet (Z.max a b)) as [l2 |] eqn:E2; [| discriminate].
  cbn [bind] in H.
  destruct (find _ l2) as [second |] eqn:Ef; [| discriminate].
  apply find_some in Ef as (Hin & Hfree).
  rewrite overlaps_any_single in Hfree. apply negb_true_iff in Hfree.
  destruct (subnets_inside vnet _ _ first Hwf E1 ltac:(left; reflexivity))
    as (Hf & Hf1 & Hf2).
  destruct (subnets_inside vnet _ _ second Hwf E2 Hin) as (Hs & Hs1 & Hs2).
  assert (subnet_of first vnet = true)
    by (apply subnet_of_intervals; auto).
  assert (subnet_of second vnet = true)
    by (apply subnet_of_intervals; auto).
  destruct (Z.min a b =? a); inversion H; subst; repeat split;
    try assumption; try apply Hf; try apply Hs.
  rewrite overlaps_sym. assumption.
Qed.

(** ** BoundedRangeAllocator *)

Lemma build_plan_loop_cons used base a b q rest :
  build_plan_loop used base a b (q :: rest) =
  match attempt used base a b q with
  | Ok plan => Ok plan
  | Err (RuntimeError _) => build_plan_loop used base a b rest
  | Err e => Err e
  end.
Proof.
  cbn [build_plan_loop]. unfold attempt.
  destruct (first_free_subnet base q used) as [v | [w | r |]]; cbn [bind];
    try reflexivity.
  destruct (allocate_two_subnets v a b) as [[w pe] | [w | r |]]; reflexivity.
Qed.

Lemma capacity_failure_dec {A : Type} (r : result A) :
  capacity_failure r \/ ~ capacity_failure r.
Proof.
  destruct r as [x | [w | why |]];
    try (right; intros (? & ?); discriminate).
  left. exists why. reflexivity.
Qed.

Lemma build_plan_loop_skip used base a b q rest :
  capacity_failure (attempt used base a b q) ->
  build_plan_loop used base a b (q :: rest)
  = build_plan_loop used base a b rest.
Proof.
  intros (why & H). rewrite build_plan_loop_cons, H. reflexivity.
Qed.

Lemma build_plan_loop_stop used base a b q rest :
  ~ capacity_failure (attempt used base a b q) ->
  build_plan_loop used base a b (q :: rest) = attempt used base a b q.
Proof.
  intros Hnot. rewrite build_plan_loop_cons.
  destruct (attempt used base a b q) as [plan | [w | why |]];
    try reflexivity.
  exfalso. apply Hnot. exists why. reflexivity.
Qed.

(** The loop stops at the first size whose attempt is not a capacity
    failure, and ends in [NoVNetSizeWorks] when there is none. *)
Lemma build_plan_loop_spec used base a b sizes r :
  build_plan_loop used base a b sizes = r <->
  (exists pre q post,
      sizes = pre ++ q :: post
      /\ Forall (fun q' => capacity_failure (attempt used base a b q')) pre
      /\ ~ capacity_failure (attempt used base a b q)
      /\ r = attempt used base a b q)
  \/ (Forall (fun q' => capacity_failure (attempt used base a b q')) sizes
      /\ r = Err (RuntimeError NoVNetSizeWorks)).
Proof.
  revert r. induction sizes as [| q rest IH]; intros r.
  - cbn [build_plan_loop]. split.
    + intros <-. right. split; [constructor | reflexivity].
    + intros [(pre & q & post & H & _) | (_ & ->)]; [| reflexivity].
      destruct pre; discriminate.
  - destruct (capacity_failure_dec (attempt used base a b q)) as [Hq | Hq].
    + rewrite build_plan_loop_skip by assumption. rewrite IH. split.
      * intros [(pre & q' & post & -> & Hpre & Hq' & ->) | (Hall & ->)].
        -- left. exists (q :: pre), q', post. repeat split; try assumption.
           constructor; assumption.
        -- right. split; [| reflexivity]. constructor; assumption.
      * intros [(pre & q' & post & H & Hpre & Hq' & ->) | (Hall & ->)].
        -- destruct pre as [| x pre]; inversion H; subst.
           ++ contradiction.
           ++ left. exists pre, q', post. inversion Hpre. auto.
        -- right. inversion Hall. auto.
    + rewrite build_plan_loop_stop by assumption. split.
      * intros <-. left. exists [], q, rest.
        repeat split; [constructor | assumption].
      * intros [(pre & q' & post & H & Hpre & Hq' & ->) | (Hall & _)].
        -- destruct pre as [| x pre]; inversion H; subst; [reflexivity |].
           inversion Hpre. contradiction.
        -- inversion Hall. contradiction.
Qed.

(** The sizes [build_plan] tries: from the requested prefix length down to
    the base's own. *)
Lemma sizes_split hi lo pre q post :
  py_range hi (lo - 1) (-1) = pre ++ q :: post ->
  lo <= q <= hi
  /\ (forall q', In q' pre <-> q < q' <= hi)
  /\ (forall q', In q' post <-> lo <= q' < q).
Proof.
  rewrite py_range_down. intros H.
  set (k := Z.to_nat (hi - (lo - 1))) in *.
  assert (Hlen : length (pre ++ q :: post) = k)
    by (rewrite <- H, length_map, length_seq; reflexivity).
  rewrite length_app in Hlen. cbn [length] in Hlen.
  assert (Hnth : forall i, (i < k)%nat ->
            nth i (pre ++ q :: post) 0 = hi - Z.of_nat i).
  { intros i Hi. rewrite <- H.
    rewrite (nth_indep _ 0 (hi - Z.of_nat 0))
      by (rewrite length_map, length_seq; assumption).
    rewrite (map_nth (fun i => hi - Z.of_nat i)), seq_nth by assumption.
    reflexivity. }
  assert (Hq : q = hi - Z.of_nat (length pre)).
  { rewrite <- Hnth by lia. rewrite app_nth2 by lia.
    now rewrite Nat.sub_diag. }
  split; [lia |]. split; intros q'.
  - split.
    + intros Hin. apply (In_nth _ _ 0) in Hin as (i & Hi & <-).
      rewrite <- (app_nth1 pre (q :: post)) by assumption.
      rewrite Hnth by lia. lia.
    + intros Hq'. replace q' with (hi - Z.of_nat (Z.to_nat (hi - q'))) by lia.
      rewrite <- Hnth by lia. rewrite app_nth1 by lia.
      apply nth_In. lia.
  - split.
    + intros Hin. apply (In_nth _ _ 0) in Hin as (i & Hi & <-).
      replace (nth i post 0)
        with (nth (length pre + S i) (pre ++ q :: post) 0)
        by (rewrite app_nth2 by lia;
            replace (length pre + S i - length pre)%nat with (S i) by lia;
            reflexivity).
      rewrite Hnth by lia. lia.
    + intros Hq'.
      set (i := Z.to_nat (hi - q')).
      replace q' with (hi - Z.of_nat i) by lia.
      rewrite <- Hnth by lia. rewrite app_nth2 by lia.
      replace (i - length pre)%nat with (S (i - length pre - 1)) by lia.
      cbn [nth]. apply nth_In. lia.
Qed.

Lemma sizes_all hi lo q :
  In q (py_range hi (lo - 1) (-1)) <-> lo <= q <= hi.
Proof.
  rewrite py_range_down, in_map_iff. split.
  - intros (i & <- & Hi). apply in_seq in Hi. lia.
  - intros H. exists (Z.to_nat (hi - q)). split; [lia | apply in_seq; lia].
Qed.

Lemma first_free_subnet_prefixlen base q used v :
  wf base -> q <= 32 -> first_free_subnet base q used = Ok v ->
  wf v /\ prefixlen v = q /\ prefixlen base <= q.
Proof.
  intros Hwf Hq H. destruct (Z.lt_ge_cases q (prefixlen base)) as [Hlt | Hge].
  { rewrite first_free_subnet_too_large in H by assumption. discriminate. }
  rewrite first_free_subnet_find in H by (assumption || lia).
  destruct (find _ _) as [c |] eqn:Ef; [| discriminate].
  inversion H. subst c. apply find_some in Ef as (Hin & _).
  destruct (sub_ranges_inside base q v Hwf Hin) as (H1 & H2 & _). auto.
Qed.

(** With subnet prefix lengths between the size tried and 32, an attempt
    succeeds or fails for lack of room. *)
Lemma attempt_valid used base a b q :
  wf base -> prefixlen base <= q <= 32 -> q <= a <= 32 -> q <= b <= 32 ->
  (exists plan, attempt used base a b q = Ok plan)
  \/ capacity_failure (attempt used base a b q).
Proof.
  intros Hwf Hq Ha Hb. unfold attempt.
  destruct (first_free_subnet base q used) as [v | e] eqn:E.
  - destruct (first_free_subnet_prefixlen base q used v Hwf ltac:(lia) E)
      as (Hv & Hpv & _).
    cbn [bind]. destruct (Z.eq_dec (Z.min a b) q) as [Hmin | Hmin].
    + right. rewrite allocate_full by (assumption || lia).
      eexists. reflexivity.
    + left. rewrite allocate_fits by (assumption || lia).
      cbn zeta. destruct (Z.min a b =? a); eexists; reflexivity.
  - right. rewrite first_free_subnet_find in E by assumption.
    destruct (find _ _); [discriminate |]. inversion E. cbn [bind].
    eexists. reflexivity.
Qed.

(** The guard of the packer ends the search: its [ValueError] is not among
    the failures the loop catches. *)
Lemma attempt_guard used base a b q v :
  wf base -> q <= 32 -> first_free_subnet base q used = Ok v ->
  a < q \/ b < q ->
  attempt used base a b q = Err (ValueError SubnetPrefixesOutsideVNet).
Proof.
  intros Hwf Hq E Hab.
  destruct (first_free_subnet_prefixlen base q used v Hwf Hq E) as (_ & Hpv & _).
  unfold attempt. rewrite E. cbn [bind].
  rewrite allocate_outside by lia. reflexivity.
Qed.

Lemma build_plan_spec used base vp a b r :
  build_plan used base vp a b = r <->
  (exists q,
      prefixlen base <= q <= vp
      /\ (forall q', q < q' <= vp -> capacity_failure (attempt used base a b q'))
      /\ ~ capacity_failure (attempt used base a b q)
      /\ r = attempt used base a b q)
  \/ ((forall q, prefixlen base <= q <= vp ->
                 capacity_failure (attempt used base a b q))
      /\ r = Err (RuntimeError NoVNetSizeWorks)).
Proof.
  unfold build_plan. rewrite build_plan_loop_spec. split.
  - intros [(pre & q & post & H & Hpre & Hq & ->) | (Hall & ->)].
    + left. destruct (sizes_split _ _ _ _ _ H) as (Hr & Hin & _).
      exists q. repeat split; try assumption; try lia.
      intros q' Hq'. rewrite Forall_forall in Hpre. apply Hpre, Hin, Hq'.
    + right. split; [| reflexivity]. intros q Hq.
      rewrite Forall_forall in Hall. apply Hall, sizes_all, Hq.
  - intros [(q & Hr & Habove & Hq & ->) | (Hall & ->)].
    + left. destruct (in_split q (py_range vp (prefixlen base - 1) (-1)))
        as (pre & post & H); [apply sizes_all, Hr |].
      exists pre, q, post. destruct (sizes_split _ _ _ _ _ H) as (_ & Hin & _).
      repeat split; try assumption.
      apply Forall_forall. intros q' Hq'. apply Habove, Hin, Hq'.
    + right. split; [| reflexivity].
      apply Forall_forall. intros q Hq. apply Hall, sizes_all, Hq.
Qed.

(** ** OctetRolloverAllocator: the order of the candidates *)

Lemma in_zrange lo hi x : In x (zrange lo hi) <-> lo <= x < hi.
Proof.
  unfold zrange. rewrite in_map_iff. split.
  - intros (i & <- & Hi). apply in_seq in Hi. lia.
  - intros H. exists (Z.to_nat (x - lo)). split; [lia | apply in_seq; lia].
Qed.

Lemma zrange_cons lo hi : lo < hi -> zrange lo hi = lo :: zrange (lo + 1) hi.
Proof.
  intros H. unfold zrange.
  replace (Z.to_nat (hi - lo)) with (S (Z.to_nat (hi - (lo + 1)))) by lia.
  cbn [seq map]. f_equal; [cbn; lia |].
  rewrite <- seq_shift, map_map. apply map_ext. intros i. lia.
Qed.

Lemma py_range_zrange lo hi : py_range lo hi 1 = zrange lo hi.
Proof. apply py_range_unit. Qed.

Lemma bucket_wf a s t :
  0 <= a <= 255 -> 0 <= s <= 255 -> 0 <= t <= 255 -> wf (bucket_of a s t).
Proof.
  intros Ha Hs Ht. unfold wf, bucket_of. cbn [network_address prefixlen].
  change (2 ^ (32 - 24)) with 256. change (2 ^ 24) with 16777216.
  change (2 ^ 16) with 65536. change (2 ^ 8) with 256.
  change (2 ^ 32) with 4294967296.
  repeat split; try lia.
  replace (a * 16777216 + s * 65536 + t * 256)
    with ((a * 65536 + s * 256 + t) * 256) by ring.
  apply Z.mod_mul. lia.
Qed.

Lemma bucket_vnets_candidates vp a s t :
  0 <= a <= 255 -> 0 <= s <= 255 -> 0 <= t <= 255 -> 24 <= vp <= 32 ->
  bucket_vnets vp (bucket_of a s t) = Ok (block_candidates vp (bucket_of a s t)).
Proof.
  intros Ha Hs Ht Hvp. unfold bucket_vnets, block_candidates.
  destruct (vp =? 24); [reflexivity |].
  apply subnets_sub_ranges; [apply bucket_wf; assumption | cbn; lia].
Qed.

Lemma iter_thirds_candidates vp a s thirds :
  0 <= a <= 255 -> 0 <= s <= 255 -> 24 <= vp <= 32 ->
  Forall (fun t => 0 <= t <= 255) thirds ->
  iter_thirds vp a s thirds
  = Ok (flat_map (fun t => block_candidates vp (bucket_of a s t)) thirds).
Proof.
  intros Ha Hs Hvp. induction 1 as [| t thirds Ht _ IH]; cbn [iter_thirds flat_map].
  - reflexivity.
  - rewrite bucket_vnets_candidates by assumption. cbn [bind].
    rewrite IH. reflexivity.
Qed.

Lemma iter_seconds_candidates vp a s0 t0 seconds :
  0 <= a <= 255 -> 0 <= t0 <= 255 -> 24 <= vp <= 32 ->
  Forall (fun s => 0 <= s <= 255) seconds ->
  iter_seconds vp a s0 t0 seconds
  = Ok (flat_map
          (fun s => flat_map (fun t => block_candidates vp (bucket_of a s t))
                             (zrange (if s =? s0 then t0 else 0) 256))
          seconds).
Proof.
  intros Ha Ht0 Hvp.
  induction 1 as [| s seconds Hs _ IH]; cbn [iter_seconds flat_map].
  - reflexivity.
  - rewrite py_range_zrange. rewrite iter_thirds_candidates; try assumption.
    + cbn [bind]. rewrite IH. reflexivity.
    + apply Forall_forall. intros t Ht. apply in_zrange in Ht.
      destruct (s =? s0); lia.
Qed.

Lemma flat_map_pairs {A B C : Type} (f : A * B -> list C) (x : A) (l : list B) :
  flat_map f (map (pair x) l) = flat_map (fun y => f (x, y)) l.
Proof.
  induction l as [| y l IH]; cbn; [reflexivity | now rewrite IH].
Qed.

Lemma flat_map_flat_map {A B C : Type} (f : B -> list C) (g : A -> list B)
    (l : list A) :
  flat_map f (flat_map g l) = flat_map (fun x => flat_map f (g x)) l.
Proof.
  induction l as [| x l IH]; cbn; [reflexivity |].
  now rewrite flat_map_app, IH.
Qed.

Lemma flat_map_same_in {A B : Type} (f g : A -> list B) (l : list A) :
  (forall x, In x l -> f x = g x) -> flat_map f l = flat_map g l.
Proof.
  induction l as [| x l IH]; intros H; cbn; [reflexivity |].
  rewrite (H x) by (left; reflexivity). f_equal. apply IH.
  intros y Hy. apply H. now right.
Qed.

(** The nested loops of the generator run through [grid_order]. *)
Lemma loops_grid_order (vp a s0 stop t0 : Z) :
  s0 < stop ->
  flat_map
    (fun s => flat_map (fun t => block_candidates vp (bucket_of a s t))
                       (zrange (if s =? s0 then t0 else 0) 256))
    (zrange s0 stop)
  = octet_candidates a s0 stop t0 vp.
Proof.
  intros Hs. unfold octet_candidates, grid_order.
  rewrite zrange_cons by assumption. cbn [flat_map].
  rewrite Z.eqb_refl, flat_map_app, flat_map_pairs. cbn [fst snd].
  f_equal. rewrite flat_map_flat_map. apply flat_map_same_in.
  intros s Hin. apply in_zrange in Hin.
  replace (s =? s0) with false by (symmetry; apply Z.eqb_neq; lia).
  rewrite flat_map_pairs. reflexivity.
Qed.

Lemma ten_slash8_wf : wf ten_slash8.
Proof. unfold ten_slash8. wf_concrete. Qed.

Lemma one_seventy_two_slash12_wf : wf one_seventy_two_slash12.
Proof. unfold one_seventy_two_slash12. wf_concrete. Qed.

(** The pool found for a well-formed base, with the octets of the base. *)
Lemma pool_for_octet_search_ok start_base pool lo hi :
  wf start_base ->
  _pool_for_octet_search start_base = Ok (pool, (lo, hi)) ->
  prefixlen start_base = 16
  /\ lo <= second_octet (network_address start_base) < hi
  /\ ((pool = ten_slash8 /\ lo = 0 /\ hi = 256
       /\ first_octet (network_address start_base) = 10)
      \/ (pool = one_seventy_two_slash12 /\ lo = 16 /\ hi = 32
          /\ first_octet (network_address start_base) = 172)).
Proof.
  intros Hwf H. pose proof Hwf as (_ & Haddr & _).
  unfold _pool_for_octet_search in H.
  destruct (Z.eqb_spec (prefixlen start_base) 16) as [H16 | H16];
    cbn [negb] in H; [| discriminate].
  split; [assumption |].
  unfold second_octet, first_octet.
  change (2 ^ 16) with 65536. change (2 ^ 24) with 16777216.
  change (2 ^ 32) with 4294967296 in Haddr.
  destruct (contains ten_slash8 (network_address start_base)) eqn:E10.
  - inversion H. subst.
    apply (contains_iff _ _ ten_slash8_wf Haddr) in E10.
    unfold last_of, size_of, ten_slash8 in E10. cbn in E10.
    split; [apply Z.mod_pos_bound; lia |].
    left. repeat split. symmetry. apply Z.div_unique with
      (r := network_address start_base - 10 * 16777216); lia.
  - destruct (contains one_seventy_two_slash12 (network_address start_base))
      eqn:E172; [| discriminate].
    inversion H. subst.
    apply (contains_iff _ _ one_seventy_two_slash12_wf Haddr) in E172.
    unfold last_of, size_of, one_seventy_two_slash12 in E172. cbn in E172.
    split.
    + pose proof (Z.div_mod (network_address start_base) 65536 ltac:(lia)).
      pose proof (Z.mod_pos_bound (network_address start_base) 65536 ltac:(lia)).
      assert (44048 <= network_address start_base / 65536 <= 44063) by lia.
      pose proof (Z.div_mod (network_address start_base / 65536) 256 ltac:(lia)).
      pose proof (Z.mod_pos_bound (network_address start_base / 65536) 256
                    ltac:(lia)).
      lia.
    + right. repeat split. symmetry. apply Z.div_unique with
        (r := network_address start_base - 172 * 16777216); lia.
Qed.

Lemma iter_vnets_too_large start_base vp t0 :
  vp < 24 ->
  _iter_third_then_second_octet_vnets start_base vp t0
  = Err (ValueError OctetSearchVNetTooLarge).
Proof.
  intros H. unfold _iter_third_then_second_octet_vnets.
  replace (vp <? 24) with true by (symmetry; apply Z.ltb_lt; lia).
  reflexivity.
Qed.

(** After its checks the generator runs its two loops. *)
Lemma iter_vnets_loops start_base vp t0 pool lo hi :
  wf start_base -> _pool_for_octet_search start_base = Ok (pool, (lo, hi)) ->
  24 <= vp -> 0 <= t0 <= 255 ->
  _iter_third_then_second_octet_vnets start_base vp t0
  = iter_seconds vp (first_octet (network_address start_base))
      (second_octet (network_address start_base)) t0
      (zrange (second_octet (network_address start_base)) hi).
Proof.
  intros Hwf Hpool Hvp Ht0.
  destruct (pool_for_octet_search_ok _ _ _ _ Hwf Hpool) as (_ & Hs & _).
  unfold _iter_third_then_second_octet_vnets.
  replace (vp <? 24) with false by (symmetry; apply Z.ltb_ge; lia).
  rewrite Hpool. cbn [bind fst snd].
  replace ((0 <=? t0) && (t0 <=? 255)) with true
    by (symmetry; apply andb_true_iff; split; apply Z.leb_le; lia).
  replace ((lo <=? second_octet (network_address start_base))
           && (second_octet (network_address start_base) <? hi)) with true
    by (symmetry; apply andb_true_iff; split;
        [apply Z.leb_le | apply Z.ltb_lt]; lia).
  cbn [negb]. rewrite py_range_zrange. reflexivity.
Qed.

Lemma iter_vnets_candidates start_base vp t0 pool lo hi :
  wf start_base -> _pool_for_octet_search start_base = Ok (pool, (lo, hi)) ->
  24 <= vp <= 32 -> 0 <= t0 <= 255 ->
  _iter_third_then_second_octet_vnets start_base vp t0
  = Ok (octet_candidates (first_octet (network_address start_base))
          (second_octet (network_address start_base)) hi t0 vp).
Proof.
  intros Hwf Hpool Hvp Ht0.
  destruct (pool_for_octet_search_ok _ _ _ _ Hwf Hpool) as (_ & Hs & Hcase).
  rewrite (iter_vnets_loops _ _ _ _ _ _ Hwf Hpool) by lia.
  rewrite iter_seconds_candidates; try assumption.
  - rewrite loops_grid_order by lia. reflexivity.
  - destruct Hcase as [(_ & _ & _ & ->) | (_ & _ & _ & ->)]; lia.
  - apply Forall_forall. intros s Hin. apply in_zrange in Hin.
    destruct Hcase as [(_ & -> & -> & _) | (_ & -> & -> & _)]; lia.
Qed.

(** A prefix length above 32 makes [subnets] raise at the first bucket. *)
Lemma iter_vnets_too_long start_base vp t0 pool lo hi :
  wf start_base -> _pool_for_octet_search start_base = Ok (pool, (lo, hi)) ->
  32 < vp -> 0 <= t0 <= 255 ->
  _iter_third_then_second_octet_vnets start_base vp t0
  = Err (ValueError PrefixLengthDiffInvalid).
Proof.
  intros Hwf Hpool Hvp Ht0.
  destruct (pool_for_octet_search_ok _ _ _ _ Hwf Hpool) as (_ & Hs & _).
  rewrite (iter_vnets_loops _ _ _ _ _ _ Hwf Hpool) by lia.
  rewrite zrange_cons by lia. cbn [iter_seconds].
  rewrite Z.eqb_refl, py_range_zrange, zrange_cons by lia.
  cbn [iter_thirds]. unfold bucket_vnets.
  replace (vp =? 24) with false by (symmetry; apply Z.eqb_neq; lia).
  rewrite subnets_too_long by (cbn [bucket_of prefixlen]; lia).
  reflexivity.
Qed.

(** The generator succeeds on valid arguments only, and then yields
    [octet_candidates]. *)
Lemma iter_vnets_ok_inv start_base vp t0 vnets :
  wf start_base ->
  _iter_third_then_second_octet_vnets start_base vp t0 = Ok vnets ->
  exists pool lo hi,
    _pool_for_octet_search start_base = Ok (pool, (lo, hi))
    /\ 24 <= vp <= 32 /\ 0 <= t0 <= 255
    /\ vnets = octet_candidates (first_octet (network_address start_base))
                 (second_octet (network_address start_base)) hi t0 vp.
Proof.
  intros Hwf H.
  destruct (Z.lt_ge_cases vp 24) as [Hlt | Hge].
  { rewrite iter_vnets_too_large in H by assumption. discriminate. }
  destruct (_pool_for_octet_search start_base) as [[pool [lo hi]] | e] eqn:Hpool.
  2:{ unfold _iter_third_then_second_octet_vnets in H.
      rewrite Hpool in H.
      destruct (vp <? 24); discriminate. }
  assert (Ht0 : 0 <= t0 <= 255).
  { unfold _iter_third_then_second_octet_vnets in H. rewrite Hpool in H.
    destruct (vp <? 24); [discriminate |]. cbn [bind] in H.
    destruct ((0 <=? t0) && (t0 <=? 255)) eqn:E; [| discriminate].
    apply andb_true_iff in E. rewrite !Z.leb_le in E. assumption. }
  destruct (Z.lt_ge_cases 32 vp) as [Hlong | Hshort].
  { rewrite (iter_vnets_too_long _ _ _ _ _ _ Hwf Hpool) in H by assumption.
    discriminate. }
  rewrite (iter_vnets_candidates _ _ _ _ _ _ Hwf Hpool) in H by lia.
  inversion H. exists pool, lo, hi. repeat split; try lia.
Qed.

Lemma in_grid_order s0 stop t0 s t :
  In (s, t) (grid_order s0 stop t0) ->
  (s = s0 /\ t0 <= t < 256) \/ (s0 < s < stop /\ 0 <= t < 256).
Proof.
  unfold grid_order. rewrite in_app_iff, in_map_iff, in_flat_map.
  intros [(t' & Heq & Hin) | (s' & Hs' & Hin)].
  - inversion Heq. subst. apply in_zrange in Hin. left. lia.
  - apply in_map_iff in Hin as (t' & Heq & Hin). inversion Heq. subst.
    apply in_zrange in Hs', Hin. right. lia.
Qed.

(** Every candidate is well formed and lies inside the pool. *)
Lemma octet_candidates_inside start_base pool lo hi vp t0 c :
  wf start_base -> _pool_for_octet_search start_base = Ok (pool, (lo, hi)) ->
  0 <= t0 <= 255 ->
  In c (octet_candidates (first_octet (network_address start_base))
          (second_octet (network_address start_base)) hi t0 vp) ->
  wf c /\ network_address pool <= network_address c
  /\ last_of c <= last_of pool.
Proof.
  intros Hwf Hpool Ht0 Hin.
  destruct (pool_for_octet_search_ok _ _ _ _ Hwf Hpool) as (_ & Hs & Hcase).
  unfold octet_candidates in Hin. apply in_flat_map in Hin as ([s t] & Hst & Hc).
  cbn [fst snd] in Hc. apply in_grid_order in Hst.
  set (a := first_octet (network_address start_base)) in *.
  set (s0 := second_octet (network_address start_base)) in *.
  assert (Hb : wf (bucket_of a s t)
               /\ network_address pool <= network_address (bucket_of a s t)
               /\ last_of (bucket_of a s t) <= last_of pool).
  { destruct Hcase as [(-> & -> & -> & Ha) | (-> & -> & -> & Ha)]; rewrite Ha.
    - split; [apply bucket_wf; lia |].
      unfold last_of, size_of, bucket_of, ten_slash8.
      cbn [network_address prefixlen].
      change (2 ^ (32 - 24)) with 256. change (2 ^ (32 - 8)) with 16777216.
      change (2 ^ 24) with 16777216. change (2 ^ 16) with 65536.
      change (2 ^ 8) with 256. lia.
    - split; [apply bucket_wf; lia |].
      unfold last_of, size_of, bucket_of, one_seventy_two_slash12.
      cbn [network_address prefixlen].
      change (2 ^ (32 - 24)) with 256. change (2 ^ (32 - 12)) with 1048576.
      change (2 ^ 24) with 16777216. change (2 ^ 16) with 65536.
      change (2 ^ 8) with 256. lia. }
  destruct Hb as (Hbw & Hb1 & Hb2). unfold block_candidates in Hc.
  destruct (vp =? 24).
  - destruct Hc as [<- | []]. auto.
  - destruct (sub_ranges_inside _ _ _ Hbw Hc) as (Hcw & _ & Hc1 & Hc2).
    split; [assumption | lia].
Qed.

(** ** OctetRolloverAllocator: the search *)

Lemma last_cons_default {A : Type} (l : list A) (x d : A) :
  last (x :: l) d = last l x.
Proof.
  revert x d. induction l as [| y l IH]; intros x d; [reflexivity |].
  change (last (x :: y :: l) d) with (last (y :: l) d).
  rewrite (IH y d), (IH y x). reflexivity.
Qed.

Lemma rollover_loop_plan used a b vnets last0 n0 plan :
  rollover_loop used a b vnets last0 n0 = inl plan ->
  In (vnet plan) vnets
  /\ overlaps_any (vnet plan) used = false
  /\ allocate_two_subnets (vnet plan) a b
     = Ok (webapp_subnet plan, private_endpoint_subnet plan).
Proof.
  revert last0 n0. induction vnets as [| v rest IH]; intros last0 n0 H;
    cbn [rollover_loop] in H; [discriminate |].
  destruct (overlaps_any v used) eqn:Eo.
  - destruct (IH _ _ H) as (H1 & H2 & H3). repeat split; auto. now right.
  - destruct (allocate_two_subnets v a b) as [[w pe] | e] eqn:Ea.
    + inversion H. subst plan. cbn [vnet webapp_subnet private_endpoint_subnet].
      repeat split; auto. now left.
    + destruct (IH _ _ H) as (H1 & H2 & H3). repeat split; auto. now right.
Qed.

Lemma rollover_loop_exhausted used a b vnets last0 n0 last1 n1 :
  rollover_loop used a b vnets last0 n0 = inr (last1, n1) ->
  n1 = n0 + Z.of_nat (length vnets)
  /\ last1 = last (map Some (packing_errors used a b vnets)) last0.
Proof.
  revert last0 n0. induction vnets as [| v rest IH]; intros last0 n0 H;
    cbn [rollover_loop] in H.
  - inversion H. cbn. split; [lia | reflexivity].
  - unfold packing_errors. cbn [flat_map length]. fold (packing_errors used a b rest).
    destruct (overlaps_any v used) eqn:Eo.
    + destruct (IH _ _ H) as (-> & ->). split; [lia | reflexivity].
    + destruct (allocate_two_subnets v a b) as [[w pe] | e] eqn:Ea;
        [discriminate |].
      destruct (IH _ _ H) as (-> & ->). split; [lia |].
      cbn [app map]. now rewrite last_cons_default.
Qed.

Lemma rollover_loop_all_used used a b vnets last0 n0 :
  (forall v, In v vnets -> overlaps_any v used = true) ->
  rollover_loop used a b vnets last0 n0
  = inr (last0, n0 + Z.of_nat (length vnets)).
Proof.
  revert n0. induction vnets as [| v rest IH]; intros n0 H; cbn [rollover_loop].
  - cbn. do 2 f_equal. lia.
  - rewrite (H v) by (left; reflexivity).
    rewrite IH by (intros; apply H; now right).
    cbn [length]. do 2 f_equal. lia.
Qed.

Lemma existsb_subnet_of pool used :
  existsb (fun u => subnet_of pool u) used = true <->
  exists u, In u used /\ subnet_of pool u = true.
Proof. apply existsb_exists. Qed.

(** A used range that covers the pool overlaps every candidate. *)
Lemma covered_pool_blocks start_base pool lo hi vp t0 used u c :
  wf start_base -> _pool_for_octet_search start_base = Ok (pool, (lo, hi)) ->
  0 <= t0 <= 255 ->
  wf u -> In u used -> subnet_of pool u = true ->
  In c (octet_candidates (first_octet (network_address start_base))
          (second_octet (network_address start_base)) hi t0 vp) ->
  overlaps_any c used = true.
Proof.
  intros Hwf Hpool Ht0 Hu Hin Hsub Hc.
  destruct (octet_candidates_inside _ _ _ _ _ _ _ Hwf Hpool Ht0 Hc)
    as (Hcw & Hc1 & Hc2).
  assert (Hpw : wf pool).
  { destruct (pool_for_octet_search_ok _ _ _ _ Hwf Hpool)
      as (_ & _ & [(-> & _) | (-> & _)]);
      [apply ten_slash8_wf | apply one_seventy_two_slash12_wf]. }
  apply (subnet_of_intervals pool u Hpw Hu) in Hsub as (Hs1 & Hs2).
  apply overlaps_any_true. exists u. split; [assumption |].
  apply inside_overlaps; try assumption; lia.
Qed.

(** ** The invariants of a plan, read on address intervals *)

Lemma plan_invariant_intervals used plan :
  plan_invariant used plan -> Forall wf used ->
  let v := vnet plan in
  let w := webapp_subnet plan in
  let pe := private_endpoint_subnet plan in
  Forall (fun u => last_of v < network_address u
                   \/ last_of u < network_address v) used
  /\ (network_address v <= network_address w /\ last_of w <= last_of v)
  /\ (network_address v <= network_address pe /\ last_of pe <= last_of v)
  /\ (last_of w < network_address pe \/ last_of pe < network_address w).
Proof.
  intros (Hv & Hw & Hpe & Hfree & Hsw & Hspe & Hdis) Hused. cbn zeta.
  split; [| split; [| split]].
  - apply overlaps_any_false in Hfree. rewrite Forall_forall in *.
    intros u Hu. pose proof (Hfree u Hu) as Ho.
    rewrite overlaps_intervals in Ho by auto. apply Z.leb_gt in Ho.
    pose proof (wf_last_bound _ Hv). pose proof (wf_last_bound _ (Hused u Hu)).
    lia.
  - apply subnet_of_intervals; assumption.
  - apply subnet_of_intervals; assumption.
  - rewrite overlaps_intervals in Hdis by assumption.
    apply Z.leb_gt in Hdis.
    pose proof (wf_last_bound _ Hw). pose proof (wf_last_bound _ Hpe). lia.
Qed.

(** ** The scenarios of the specification *)

(** Bounded base, nothing used: the lowest /24 and its two lowest /27. *)
Example scenario_bounded_base :
  build_plan [] (cidr 10 0 0 0 16) 24 27 27
  = Ok (mkPlan (cidr 10 0 0 0 24) (cidr 10 0 0 0 27) (cidr 10 0 0 32 27)).
Proof. vm_compute. reflexivity. Qed.

(** Octet rollover with the first candidate taken: the next /24 block. *)
Example scenario_rollover_collision :
  build_plan_with_rollover [cidr 172 16 1 0 24] (cidr 172 16 0 0 16)
    24 27 27 1
  = Ok (mkPlan (cidr 172 16 2 0 24) (cidr 172 16 2 0 27) (cidr 172 16 2 32 27)).
Proof. vm_compute. reflexivity. Qed.

(** The whole pool is used. *)
Example scenario_pool_exhausted :
  build_plan_with_rollover [cidr 10 0 0 0 8] (cidr 10 255 0 0 16) 24 27 27 1
  = Err (RuntimeError PoolCoveredByExisting).
Proof. vm_compute. reflexivity. Qed.

(** The pool is covered by two used ranges, neither of which contains it. *)
Example scenario_pool_covered_in_parts :
  build_plan_with_rollover [cidr 172 16 0 0 13; cidr 172 24 0 0 13]
    (cidr 172 31 0 0 16) 24 27 27 250
  = Err (RuntimeError (NoNonOverlappingVNet 6 None)).
Proof. vm_compute. reflexivity. Qed.

(** A /24 subnet does not leave room in a /24 parent: the /23 is tried. *)
Example scenario_size_expansion :
  build_plan [cidr 10 0 0 0 23] (cidr 10 0 0 0 22) 24 24 27
  = Ok (mkPlan (cidr 10 0 2 0 23) (cidr 10 0 2 0 24) (cidr 10 0 3 0 27)).
Proof. vm_compute. reflexivity. Qed.

(** The rollover search records the packer's error and goes on. *)
Example scenario_rollover_records_error :
  build_plan_with_rollover [] (cidr 172 31 0 0 16) 24 23 27 254
  = Err (RuntimeError
           (NoNonOverlappingVNet 2
              (Some (ValueError SubnetPrefixesOutsideVNet)))).
Proof. vm_compute. reflexivity. Qed.

(** * The claims *)

(** C1: a plan returned by [build_plan] or by [build_plan_with_rollover]
    has a network that overlaps no member of the used list, both subnets
    inside the network, and subnets that do not overlap each other. *)
Theorem plan_invariant_holds used plan :
  (forall base vp a b,
      wf base -> build_plan used base vp a b = Ok plan ->
      plan_invariant used plan)
  /\ (forall start_base vp a b t0,
         wf start_base ->
         build_plan_with_rollover used start_base vp a b t0 = Ok plan ->
         plan_invariant used plan).
Proof.
  split.
  - intros base vp a b Hwf H. apply build_plan_spec in H.
    destruct H as [(q & _ & _ & _ & H) | (_ & H)]; [| discriminate].
    symmetry in H. unfold attempt in H.
    destruct (first_free_subnet base q used) as [v | e] eqn:Ev; [| discriminate].
    cbn [bind] in H.
    destruct (allocate_two_subnets v a b) as [[w pe] | e] eqn:Ea; [| discriminate].
    inversion H. subst plan.
    destruct (first_free_subnet_ok _ _ _ _ Hwf Ev) as (Hv & _ & _ & Hfree).
    destruct (allocate_ok_sound _ _ _ _ _ Hv Ea) as (H1 & H2 & H3 & H4 & H5).
    unfold plan_invariant. cbn [vnet webapp_subnet private_endpoint_subnet].
    auto 10.
  - intros start_base vp a b t0 Hwf H. unfold build_plan_with_rollover in H.
    destruct (_iter_third_then_second_octet_vnets start_base vp t0)
      as [vnets |] eqn:Ei; [| discriminate].
    cbn [bind] in H.
    destruct (iter_vnets_ok_inv _ _ _ _ Hwf Ei)
      as (pool & lo & hi & Hpool & Hvp & Ht0 & Hvnets).
    destruct (rollover_loop used a b vnets None 0) as [p | [last1 n1]] eqn:El.
    + inversion H. subst p.
      destruct (rollover_loop_plan _ _ _ _ _ _ _ El) as (Hin & Hfree & Ha).
      rewrite Hvnets in Hin.
      destruct (octet_candidates_inside _ _ _ _ _ _ _ Hwf Hpool Ht0 Hin)
        as (Hv & _).
      destruct (allocate_ok_sound _ _ _ _ _ Hv Ha) as (H1 & H2 & H3 & H4 & H5).
      unfold plan_invariant. auto 10.
    + rewrite Hpool in H. cbn [bind] in H.
      destruct (existsb _ used); [discriminate |].
      destruct last1; discriminate.
Qed.

Lemma plan_invariant_holds_witness :
  plan_invariant [cidr 10 0 0 0 24]
    (mkPlan (cidr 10 0 1 0 24) (cidr 10 0 1 0 27) (cidr 10 0 1 32 27))
  /\ plan_invariant [cidr 172 16 1 0 24]
       (mkPlan (cidr 172 16 2 0 24) (cidr 172 16 2 0 27) (cidr 172 16 2 32 27)).
Proof.
  split.
  - apply (proj1 (plan_invariant_holds _ _) (cidr 10 0 0 0 16) 24 27 27).
    + wf_concrete.
    + vm_compute. reflexivity.
  - apply (proj2 (plan_invariant_holds _ _) (cidr 172 16 0 0 16) 24 27 27 1).
    + wf_concrete.
    + vm_compute. reflexivity.
Defined.

(** C2, as stated, fails: with a /24 parent requested and a /23 subnet, the
    /22 parent can be packed, yet [build_plan] does not retry; the guard of
    the packer raises a [ValueError], which the loop does not catch. *)
Lemma build_plan_no_retry_on_guard :
  build_plan [] (cidr 10 0 0 0 16) 24 23 27
  = Err (ValueError SubnetPrefixesOutsideVNet)
  /\ first_free_subnet (cidr 10 0 0 0 16) 24 [] = Ok (cidr 10 0 0 0 24)
  /\ allocate_two_subnets (cidr 10 0 0 0 24) 23 27
     = Err (ValueError SubnetPrefixesOutsideVNet)
  /\ attempt [] (cidr 10 0 0 0 16) 23 27 22
     = Ok (mkPlan (cidr 10 0 0 0 22) (cidr 10 0 0 0 23) (cidr 10 0 2 0 27)).
Proof. vm_compute. repeat split; reflexivity. Qed.

(** C2, amended: [build_plan] tries the requested prefix length and then
    each smaller one down to the base's own, passing over the sizes whose
    attempt fails for lack of capacity (a [RuntimeError]), and returns the
    outcome of the first other attempt; it fails with [NoVNetSizeWorks]
    exactly when every size fails for lack of capacity.  With both subnet
    prefix lengths between the requested one and 32, every failed attempt is
    of that sort, so the first size that works is returned and the failure
    means that no size works.  When a subnet prefix length is smaller than
    the prefix length of the parent found at the requested size, the
    packer's [ValueError] ends the search at once. *)
Theorem build_plan_retries used base vp a b :
  wf base -> vp <= 32 ->
  (forall r,
      build_plan used base vp a b = r <->
      (exists q,
          prefixlen base <= q <= vp
          /\ (forall q', q < q' <= vp ->
                         capacity_failure (attempt used base a b q'))
          /\ ~ capacity_failure (attempt used base a b q)
          /\ r = attempt used base a b q)
      \/ ((forall q, prefixlen base <= q <= vp ->
                     capacity_failure (attempt used base a b q))
          /\ r = Err (RuntimeError NoVNetSizeWorks)))
  /\ (vp <= a <= 32 -> vp <= b <= 32 ->
      (forall plan,
          build_plan used base vp a b = Ok plan <->
          exists q,
            prefixlen base <= q <= vp
            /\ attempt used base a b q = Ok plan
            /\ forall q', q < q' <= vp ->
                          exists e, attempt used base a b q' = Err e)
      /\ (forall e,
             build_plan used base vp a b = Err e <->
             e = RuntimeError NoVNetSizeWorks
             /\ forall q, prefixlen base <= q <= vp ->
                          exists e', attempt used base a b q = Err e'))
  /\ (forall v,
         first_free_subnet base vp used = Ok v -> a < vp \/ b < vp ->
         build_plan used base vp a b
         = Err (ValueError SubnetPrefixesOutsideVNet)).
Proof.
  intros Hwf Hvp. split; [| split].
  - intros r. apply build_plan_spec.
  - intros Ha Hb.
    assert (Hvalid : forall q, prefixlen base <= q <= vp ->
              forall e, attempt used base a b q = Err e ->
                        capacity_failure (attempt used base a b q)).
    { intros q Hq e He.
      destruct (attempt_valid used base a b q Hwf ltac:(lia) ltac:(lia) ltac:(lia))
        as [(plan & Hp) | Hc]; [congruence | assumption]. }
    split.
    + intros plan. rewrite build_plan_spec. split.
      * intros [(q & Hq & Habove & _ & Hr) | (_ & Hr)]; [| discriminate].
        exists q. repeat split; try lia; [congruence |].
        intros q' Hq'. destruct (Habove q' Hq') as (why & Hwhy). eauto.
      * intros (q & Hq & Hok & Habove). left. exists q.
        repeat split; try lia.
        -- intros q' Hq'. destruct (Habove q' Hq') as (e & He).
           apply (Hvalid q' ltac:(lia) e He).
        -- intros (why & Hwhy). congruence.
        -- congruence.
    + intros e. rewrite build_plan_spec. split.
      * intros [(q & Hq & _ & Hnot & Hr) | (Hall & Hr)].
        -- exfalso. apply Hnot. apply (Hvalid q Hq e). congruence.
        -- inversion Hr. split; [reflexivity |].
           intros q Hq. destruct (Hall q Hq) as (why & Hwhy). eauto.
      * intros (-> & Hall). right. split; [| reflexivity].
        intros q Hq. destruct (Hall q Hq) as (e' & He').
        apply (Hvalid q Hq e' He').
  - intros v Hv Hab.
    destruct (first_free_subnet_prefixlen base vp used v Hwf Hvp Hv)
      as (_ & _ & Hge).
    pose proof (attempt_guard used base a b vp v Hwf Hvp Hv Hab) as Hg.
    apply build_plan_spec. left. exists vp.
    repeat split; try lia.
    + intros (why & Hwhy). congruence.
    + congruence.
Qed.

Lemma build_plan_retries_witness :
  exists q,
    prefixlen (cidr 10 0 0 0 22) <= q <= 24
    /\ attempt [] (cidr 10 0 0 0 22) 24 27 q
       = Ok (mkPlan (cidr 10 0 0 0 23) (cidr 10 0 0 0 24) (cidr 10 0 1 0 27))
    /\ forall q', q < q' <= 24 ->
                  exists e, attempt [] (cidr 10 0 0 0 22) 24 27 q' = Err e.
Proof.
  assert (Hwf : wf (cidr 10 0 0 0 22)) by wf_concrete.
  destruct (build_plan_retries [] (cidr 10 0 0 0 22) 24 24 27
              Hwf ltac:(lia)) as (_ & Hvalid & _).
  destruct (Hvalid ltac:(lia) ltac:(lia)) as (Hok & _).
  apply Hok. vm_compute. reflexivity.
Defined.

(** C3: the octet-rollover generator yields the /24 blocks of the pool in
    the order of [grid_order]: the starting second octet with the third
    octets from the starting value to 255, then every later second octet
    up to the pool's bound with the third octets from 0 to 255; a block is
    yielded itself at prefix length 24 and as its sub-ranges, in increasing
    address order, at 25 to 32; a prefix length below 24 is rejected. *)
Theorem octet_candidates_in_order start_base vp t0 :
  (vp < 24 ->
   exists e,
     _iter_third_then_second_octet_vnets start_base vp t0 = Err e
     /\ e = ValueError OctetSearchVNetTooLarge
     /\ kind_of e = Some UnsupportedRange)
  /\ (forall pool lo hi,
         wf start_base ->
         _pool_for_octet_search start_base = Ok (pool, (lo, hi)) ->
         0 <= t0 <= 255 -> 24 <= vp <= 32 ->
         _iter_third_then_second_octet_vnets start_base vp t0
         = Ok (flat_map
                 (fun st =>
                    block_candidates vp
                      (bucket_of (first_octet (network_address start_base))
                         (fst st) (snd st)))
                 (grid_order (second_octet (network_address start_base))
                    hi t0))
         /\ (forall block, block_candidates 24 block = [block])
         /\ (forall block,
                vp <> 24 ->
                block_candidates vp block = sub_ranges block vp
                /\ StronglySorted
                     (fun x y => network_address x < network_address y)
                     (sub_ranges block vp))).
Proof.
  split.
  - intros H. eexists. split; [apply iter_vnets_too_large; assumption |].
    split; reflexivity.
  - intros pool lo hi Hwf Hpool Ht0 Hvp. split; [| split].
    + apply (iter_vnets_candidates _ _ _ _ _ _ Hwf Hpool Hvp Ht0).
    + reflexivity.
    + intros block Hne. split; [| apply sub_ranges_increasing].
      unfold block_candidates.
      destruct (Z.eqb_spec vp 24); [contradiction | reflexivity].
Qed.

Lemma octet_candidates_in_order_witness :
  _iter_third_then_second_octet_vnets (cidr 172 31 0 0 16) 25 254
  = Ok [cidr 172 31 254 0 25; cidr 172 31 254 128 25;
        cidr 172 31 255 0 25; cidr 172 31 255 128 25].
Proof.
  assert (Hwf : wf (cidr 172 31 0 0 16)) by wf_concrete.
  destruct (octet_candidates_in_order (cidr 172 31 0 0 16) 25 254) as (_ & H).
  destruct (H one_seventy_two_slash12 16 32 Hwf eq_refl ltac:(lia) ltac:(lia))
    as (Heq & _).
  rewrite Heq. vm_compute. reflexivity.
Defined.

(** C4: when the candidates run out, [build_plan_with_rollover] fails with
    the covered-pool error if the pool is a subset of some member of the used
    list, as it is when the pool itself is a member, and otherwise with the
    error that carries the number of candidates tried and the last packing
    error. *)
Theorem rollover_exhaustion used start_base vp a b t0 vnets pool allowed :
  wf start_base -> Forall wf used ->
  _iter_third_then_second_octet_vnets start_base vp t0 = Ok vnets ->
  _pool_for_octet_search start_base = Ok (pool, allowed) ->
  (existsb (fun u => subnet_of pool u) used = true ->
   build_plan_with_rollover used start_base vp a b t0
   = Err (RuntimeError PoolCoveredByExisting)
   /\ kind_of (RuntimeError PoolCoveredByExisting) = Some PoolExhausted)
  /\ (In pool used ->
      build_plan_with_rollover used start_base vp a b t0
      = Err (RuntimeError PoolCoveredByExisting))
  /\ (existsb (fun u => subnet_of pool u) used = false ->
      forall e,
        build_plan_with_rollover used start_base vp a b t0 = Err e ->
        e = RuntimeError
              (NoNonOverlappingVNet (Z.of_nat (length vnets))
                 (last_packing_error used a b vnets))
        /\ kind_of e = Some NoCapacity).
Proof.
  intros Hwf Hused Hiter Hpool. destruct allowed as [lo hi].
  destruct (iter_vnets_ok_inv _ _ _ _ Hwf Hiter)
    as (pool' & lo' & hi' & Hpool' & Hvp & Ht0 & Hvnets).
  rewrite Hpool in Hpool'. inversion Hpool'. subst pool' lo' hi'.
  assert (Hcovered :
    existsb (fun u => subnet_of pool u) used = true ->
    build_plan_with_rollover used start_base vp a b t0
    = Err (RuntimeError PoolCoveredByExisting)).
  { intros Hex. pose proof Hex as Hex'.
    apply existsb_subnet_of in Hex' as (u & Hu & Hsub).
    unfold build_plan_with_rollover. rewrite Hiter. cbn [bind].
    rewrite rollover_loop_all_used.
    - rewrite Hpool. cbn [bind]. rewrite Hex. reflexivity.
    - intros v Hv. rewrite Hvnets in Hv.
      rewrite Forall_forall in Hused.
      apply (covered_pool_blocks _ _ _ _ _ _ _ u v Hwf Hpool Ht0
               (Hused u Hu) Hu Hsub Hv). }
  split; [| split].
  - intros Hex. split; [apply Hcovered, Hex | reflexivity].
  - intros Hin. apply Hcovered. apply existsb_subnet_of. exists pool.
    split; [assumption |].
    assert (Hpw : wf pool).
    { destruct (pool_for_octet_search_ok _ _ _ _ Hwf Hpool)
        as (_ & _ & [(-> & _) | (-> & _)]);
        [apply ten_slash8_wf | apply one_seventy_two_slash12_wf]. }
    apply subnet_of_intervals; [assumption | assumption | lia].
  - intros Hex e H. unfold build_plan_with_rollover in H.
    rewrite Hiter in H. cbn [bind] in H.
    destruct (rollover_loop used a b vnets None 0) as [p | [last1 n1]] eqn:El;
      [discriminate |].
    rewrite Hpool in H. cbn [bind] in H. rewrite Hex in H.
    destruct (rollover_loop_exhausted _ _ _ _ _ _ _ _ El) as (Hn & Hlast).
    fold (last_packing_error used a b vnets) in Hlast.
    rewrite Z.add_0_l in Hn. subst n1 last1.
    destruct (last_packing_error used a b vnets); inversion H;
      split; reflexivity.
Qed.

Lemma rollover_exhaustion_witness :
  build_plan_with_rollover [cidr 172 16 0 0 12] (cidr 172 31 0 0 16)
    24 27 27 1
  = Err (RuntimeError PoolCoveredByExisting)
  /\ build_plan_with_rollover [cidr 172 31 254 0 23] (cidr 172 31 0 0 16)
       24 24 27 254
     = Err (RuntimeError (NoNonOverlappingVNet 2 None)).
Proof.
  assert (Hwf : wf (cidr 172 31 0 0 16)) by wf_concrete.
  split.
  - assert (Hused : Forall wf [cidr 172 16 0 0 12]).
    { constructor; [| constructor]. wf_concrete. }
    destruct (rollover_exhaustion [cidr 172 16 0 0 12] (cidr 172 31 0 0 16)
                24 27 27 1 _ _ _ Hwf Hused eq_refl eq_refl) as (_ & H & _).
    apply H. left. reflexivity.
  - assert (Hused : Forall wf [cidr 172 31 254 0 23]).
    { constructor; [| constructor]. wf_concrete. }
    destruct (rollover_exhaustion [cidr 172 31 254 0 23] (cidr 172 31 0 0 16)
                24 24 27 254 _ _ _ Hwf Hused eq_refl eq_refl) as (_ & _ & H).
    destruct (H eq_refl _ eq_refl) as (_ & _).
    vm_compute. reflexivity.
Defined.

(** C5: [allocate_two_subnets] takes as [first] the first sub-range of the
    parent at the smaller of the two prefix lengths, as [second] the first
    sub-range at the larger one that does not overlap [first], and hands them
    back under the caller's labels; the sub-ranges come in increasing address
    order, and the outcome is a function of the parent and the two prefix
    lengths. *)
Theorem allocate_two_subnets_first_fit parent lenA lenB :
  wf parent ->
  to_option (allocate_two_subnets parent lenA lenB)
  = allocateSiblings parent lenA lenB
  /\ (forall len,
         StronglySorted (fun x y => network_address x < network_address y)
                        (sub_ranges parent len))
  /\ (forall r1 r2,
         allocate_two_subnets parent lenA lenB = r1 ->
         allocate_two_subnets parent lenA lenB = r2 -> r1 = r2).
Proof.
  intros Hwf. split; [apply allocate_refines_spec; assumption |].
  split; [intros len; apply sub_ranges_increasing |].
  intros r1 r2 <- <-. reflexivity.
Qed.

Lemma allocate_two_subnets_first_fit_witness :
  allocateSiblings (cidr 10 0 0 0 24) 27 26
  = Some (cidr 10 0 0 64 27, cidr 10 0 0 0 26)
  /\ to_option (allocate_two_subnets (cidr 10 0 0 0 24) 27 26)
     = Some (cidr 10 0 0 64 27, cidr 10 0 0 0 26).
Proof.
  assert (Hwf : wf (cidr 10 0 0 0 24)) by wf_concrete.
  destruct (allocate_two_subnets_first_fit (cidr 10 0 0 0 24) 27 26 Hwf)
    as (Heq & _).
  split; [| rewrite Heq]; vm_compute; reflexivity.
Defined.

(** C6: for a positive count whose next power of two is at most 2^32,
    [prefix_len_for_total_addresses] returns the prefix length whose size is
    the smallest power of two that is at least the count; it fails when the
    count is not positive and when that power of two exceeds 2^32. *)
Theorem prefix_len_for_total_addresses_spec n t :
  pow2_ceiling n t ->
  (0 < n -> t <= 2 ^ 32 ->
   exists p,
     prefix_len_for_total_addresses n = Ok p
     /\ 0 <= p <= 32 /\ size_of p = t)
  /\ (0 < n -> 2 ^ 32 < t ->
      prefix_len_for_total_addresses n = Err (ValueError RangeTooLargeForIPv4))
  /\ (n <= 0 ->
      prefix_len_for_total_addresses n = Err (ValueError IPCountNotPositive))
  /\ (forall e,
         prefix_len_for_total_addresses n = Err e ->
         kind_of e = Some InvalidSize).
Proof.
  intros Hceil.
  assert (Ht : 0 < n -> t = 2 ^ bit_length (n - 1)).
  { intros Hn. apply (pow2_ceiling_unique n); [assumption |].
    apply pow2_ceiling_bit_length. assumption. }
  pose proof (bit_length_nonneg (n - 1)) as Hb.
  split; [| split; [| split]].
  - intros Hn Hle. rewrite (Ht Hn) in *.
    assert (bit_length (n - 1) <= 32).
    { destruct (Z.le_gt_cases (bit_length (n - 1)) 32); [assumption |].
      assert (2 ^ 32 < 2 ^ bit_length (n - 1))
        by (apply Z.pow_lt_mono_r; lia).
      lia. }
    exists (32 - bit_length (n - 1)). split; [apply prefix_len_small; lia |].
    split; [lia |]. unfold size_of. f_equal. lia.
  - intros Hn Hgt. rewrite (Ht Hn) in Hgt. apply prefix_len_large; [lia |].
    destruct (Z.le_gt_cases (bit_length (n - 1)) 32); [| assumption].
    assert (2 ^ bit_length (n - 1) <= 2 ^ 32)
      by (apply Z.pow_le_mono_r; lia).
    lia.
  - apply prefix_len_nonpositive.
  - intros e He. destruct (Z.le_gt_cases n 0) as [Hn | Hn].
    + rewrite prefix_len_nonpositive in He by assumption.
      inversion He. reflexivity.
    + destruct (Z.le_gt_cases (bit_length (n - 1)) 32) as [Hs | Hl].
      * rewrite prefix_len_small in He by assumption. discriminate.
      * rewrite prefix_len_large in He by assumption.
        inversion He. reflexivity.
Qed.

Lemma pow2_ceiling_33 : pow2_ceiling 33 64.
Proof.
  split; [exists 6; split; [lia | reflexivity] |]. split; [lia |].
  intros j Hj H. destruct (Z.le_gt_cases 6 j) as [H6 | H6].
  - change 64 with (2 ^ 6). apply Z.pow_le_mono_r; lia.
  - assert (2 ^ j <= 2 ^ 5) by (apply Z.pow_le_mono_r; lia).
    change (2 ^ 5) with 32 in *. lia.
Defined.

Lemma prefix_len_for_total_addresses_spec_witness :
  exists p,
    prefix_len_for_total_addresses 33 = Ok p
    /\ 0 <= p <= 32 /\ size_of p = 64.
Proof.
  destruct (prefix_len_for_total_addresses_spec 33 64 pow2_ceiling_33)
    as (H & _).
  apply H; [lia | cbn; lia].
Defined.

(** C7: the size of the range [prefix_len_for_total_addresses] answers does
    not decrease when the count grows, is a power of two, and is at least
    the count. *)
Theorem prefix_len_size_monotone n m pn pm :
  prefix_len_for_total_addresses n = Ok pn ->
  prefix_len_for_total_addresses m = Ok pm ->
  (n <= m -> size_of pn <= size_of pm)
  /\ (exists k, 0 <= k /\ size_of pn = 2 ^ k)
  /\ n <= size_of pn.
Proof.
  intros Hn Hm.
  apply prefix_len_inv in Hn as (Hn0 & Hnb & ->).
  apply prefix_len_inv in Hm as (Hm0 & Hmb & ->).
  pose proof (bit_length_nonneg (n - 1)) as Hbn.
  pose proof (bit_length_nonneg (m - 1)) as Hbm.
  destruct (bit_length_pred_spec n Hn0) as (Hfit & Hmin).
  destruct (bit_length_pred_spec m Hm0) as (Hfitm & _).
  unfold size_of.
  replace (32 - (32 - bit_length (n - 1))) with (bit_length (n - 1)) by lia.
  replace (32 - (32 - bit_length (m - 1))) with (bit_length (m - 1)) by lia.
  split; [| split].
  - intros Hle. apply Z.pow_le_mono_r; [lia |].
    apply Hmin; [assumption | lia].
  - exists (bit_length (n - 1)). split; [assumption | reflexivity].
  - assumption.
Qed.

Lemma prefix_len_size_monotone_witness :
  (27 <= 33 -> size_of 27 <= size_of 26)
  /\ (exists k, 0 <= k /\ size_of 27 = 2 ^ k)
  /\ 27 <= size_of 27.
Proof.
  apply (prefix_len_size_monotone 27 33 27 26); vm_compute; reflexivity.
Defined.

(** C8: [subnet_prefix_len_for_usable_ips] adds the 5 reserved addresses to
    the count of usable hosts and asks [prefix_len_for_total_addresses]; for
    27 usable hosts the answer is the prefix length 27, a range of 32
    addresses. *)
Theorem subnet_prefix_len_adds_reserved :
  (forall usable_ips,
      subnet_prefix_len_for_usable_ips usable_ips
      = prefix_len_for_total_addresses (usable_ips + 5))
  /\ subnet_prefix_len_for_usable_ips 27 = Ok 27
  /\ size_of 27 = 32.
Proof.
  split; [intros; reflexivity |]. split; vm_compute; reflexivity.
Qed.

(** C9: [first_free_subnet] returns the first sub-range of the base at the
    requested prefix length, in increasing address order, that overlaps no
    member of the used list; it fails when the requested prefix length is
    smaller than the base's own and when every candidate overlaps the used
    list. *)
Theorem first_free_subnet_first_fit base prefix_len used :
  wf base ->
  (prefix_len < prefixlen base ->
   exists e,
     first_free_subnet base prefix_len used = Err e
     /\ e = ValueError PrefixLargerThanBase
     /\ kind_of e = Some NoCapacity)
  /\ (prefixlen base <= prefix_len <= 32 ->
      (forall c,
          first_free_subnet base prefix_len used = Ok c <->
          exists pre post,
            sub_ranges base prefix_len = pre ++ c :: post
            /\ Forall (fun x => overlaps_any x used = true) pre
            /\ overlaps_any c used = false)
      /\ ((forall x, In x (sub_ranges base prefix_len) ->
                     overlaps_any x used = true) <->
          first_free_subnet base prefix_len used
          = Err (RuntimeError NoFreeNetwork))
      /\ kind_of (RuntimeError NoFreeNetwork) = Some NoCapacity
      /\ StronglySorted (fun x y => network_address x < network_address y)
                        (sub_ranges base prefix_len)).
Proof.
  intros Hwf. split.
  - intros Hlt. eexists. split; [apply first_free_subnet_too_large; assumption |].
    split; reflexivity.
  - intros Hlen. rewrite first_free_subnet_find by assumption.
    split; [| split; [| split]].
    + intros c.
      destruct (find _ (sub_ranges base prefix_len)) as [c' |] eqn:Ef.
      * split.
        -- intros H. inversion H. subst c'.
           apply find_first_iff in Ef as (pre & post & Heq & Hpre & Hc).
           exists pre, post. split; [assumption |]. split.
           ++ eapply Forall_impl; [| exact Hpre]. cbn. intros x Hx.
              now apply negb_false_iff in Hx.
           ++ now apply negb_true_iff in Hc.
        -- intros (pre & post & Heq & Hpre & Hc).
           assert (Hf : find (fun c0 => negb (overlaps_any c0 used))
                          (sub_ranges base prefix_len) = Some c).
           { apply find_first_iff. exists pre, post. split; [assumption |].
             split.
             - eapply Forall_impl; [| exact Hpre]. cbn. intros x Hx.
               now rewrite Hx.
             - now rewrite Hc. }
           congruence.
      * split; [discriminate |].
        intros (pre & post & Heq & _ & Hc).
        rewrite find_none_iff in Ef.
        rewrite (proj1 (negb_false_iff _) (Ef c ltac:(rewrite Heq; apply in_elt)))
          in Hc.
        discriminate.
    + destruct (find _ (sub_ranges base prefix_len)) as [c' |] eqn:Ef.
      * split; [| discriminate]. intros Hall.
        apply find_some in Ef as (Hin & Hfree).
        rewrite (Hall c' Hin) in Hfree. discriminate.
      * split; [reflexivity |]. intros _ x Hx.
        rewrite find_none_iff in Ef. apply negb_false_iff. apply Ef, Hx.
    + reflexivity.
    + apply sub_ranges_increasing.
Qed.

Lemma first_free_subnet_first_fit_witness :
  exists pre post,
    sub_ranges (cidr 10 0 0 0 22) 24 = pre ++ cidr 10 0 2 0 24 :: post
    /\ Forall (fun x => overlaps_any x [cidr 10 0 0 0 23] = true) pre
    /\ overlaps_any (cidr 10 0 2 0 24) [cidr 10 0 0 0 23] = false.
Proof.
  assert (Hwf : wf (cidr 10 0 0 0 22)) by wf_concrete.
  destruct (first_free_subnet_first_fit (cidr 10 0 0 0 22) 24
              [cidr 10 0 0 0 23] Hwf) as (_ & H).
  destruct (H ltac:(cbn; lia)) as (Hok & _).
  apply Hok. vm_compute. reflexivity.
Defined.

(** C10: for a parent of prefix length [p] and subnet prefix lengths in
    [p, 32], [allocate_two_subnets] raises its capacity error exactly when
    the smaller of the two is [p], and raises nothing else; when the smaller
    one is above [p] the packing succeeds. *)
Theorem allocate_two_subnets_capacity vnet a b :
  wf vnet -> prefixlen vnet <= a <= 32 -> prefixlen vnet <= b <= 32 ->
  (allocate_two_subnets vnet a b
   = Err (RuntimeError UnableToAllocateTwoSubnets)
   <-> Z.min a b = prefixlen vnet)
  /\ (prefixlen vnet < Z.min a b ->
      exists webapp pe, allocate_two_subnets vnet a b = Ok (webapp, pe))
  /\ (forall e,
         allocate_two_subnets vnet a b = Err e ->
         e = RuntimeError UnableToAllocateTwoSubnets).
Proof.
  intros Hwf Ha Hb.
  assert (Hfits : prefixlen vnet < Z.min a b ->
            exists webapp pe, allocate_two_subnets vnet a b = Ok (webapp, pe)).
  { intros Hlt. rewrite allocate_fits by (assumption || lia). cbn zeta.
    destruct (Z.min a b =? a); eauto. }
  split; [| split].
  - split.
    + intros Herr. destruct (Z.eq_dec (Z.min a b) (prefixlen vnet)) as [| Hne];
        [assumption |].
      destruct (Hfits ltac:(lia)) as (w & pe & Hok). congruence.
    + intros Hmin. apply allocate_full; assumption.
  - exact Hfits.
  - intros e He. destruct (Z.eq_dec (Z.min a b) (prefixlen vnet)) as [Heq | Hne].
    + rewrite allocate_full in He by assumption. inversion He. reflexivity.
    + destruct (Hfits ltac:(lia)) as (w & pe & Hok). congruence.
Qed.

Lemma allocate_two_subnets_capacity_witness :
  (allocate_two_subnets (cidr 10 0 0 0 24) 24 27
   = Err (RuntimeError UnableToAllocateTwoSubnets)
   <-> Z.min 24 27 = prefixlen (cidr 10 0 0 0 24))
  /\ (prefixlen (cidr 10 0 0 0 24) < Z.min 24 27 ->
      exists webapp pe,
        allocate_two_subnets (cidr 10 0 0 0 24) 24 27 = Ok (webapp, pe))
  /\ (forall e,
         allocate_two_subnets (cidr 10 0 0 0 24) 24 27 = Err e ->
         e = RuntimeError UnableToAllocateTwoSubnets).
Proof.
  apply (allocate_two_subnets_capacity (cidr 10 0 0 0 24) 24 27).
  - wf_concrete.
  - cbn. lia.
  - cbn. lia.
Defined.

(** * Further properties of the planner *)

(** ** OverlapChecker *)

Lemma overlaps_nested a b :
  wf a -> wf b ->
  overlaps a b = true <-> subnet_of a b = true \/ subnet_of b a = true.
Proof.
  intros Ha Hb.
  rewrite overlaps_intervals, Z.leb_le by assumption.
  rewrite (subnet_of_intervals a b Ha Hb), (subnet_of_intervals b a Hb Ha).
  destruct (wf_aligned a Ha) as (m & Hm & _).
  destruct (wf_aligned b Hb) as (k & Hk & _).
  pose proof (wf_last_bound a Ha) as Hla. pose proof (wf_last_bound b Hb) as Hlb.
  pose proof Ha as (Hpa & _). pose proof Hb as (Hpb & _).
  pose proof (size_of_pos (prefixlen a) ltac:(lia)) as Hsa.
  pose proof (size_of_pos (prefixlen b) ltac:(lia)) as Hsb.
  unfold last_of in *. rewrite Hm, Hk in *.
  set (sa := size_of (prefixlen a)) in *. set (sb := size_of (prefixlen b)) in *.
  split; [| intros [H | H]; lia].
  intros Hmeet.
  destruct (Z.le_gt_cases (prefixlen a) (prefixlen b)) as [Hle | Hgt].
  - (* [a] is the larger range: [b] lies inside it *)
    right.
    pose proof (size_of_split (prefixlen a) (prefixlen b) ltac:(lia)) as Hsplit.
    fold sa sb in Hsplit.
    pose proof (pow2_pos (prefixlen b - prefixlen a) ltac:(lia)) as Hj.
    set (j := 2 ^ (prefixlen b - prefixlen a)) in *.
    assert (m * j < k + 1) by nia.
    assert (k < m * j + j) by nia.
    nia.
  - left.
    pose proof (size_of_split (prefixlen b) (prefixlen a) ltac:(lia)) as Hsplit.
    fold sa sb in Hsplit.
    pose proof (pow2_pos (prefixlen a - prefixlen b) ltac:(lia)) as Hj.
    set (j := 2 ^ (prefixlen a - prefixlen b)) in *.
    assert (k * j < m + 1) by nia.
    assert (m < k * j + j) by nia.
    nia.
Qed.

(** X1: a well-formed candidate overlaps a list of well-formed used ranges
    exactly when one of them contains it or lies inside it: two ranges never
    overlap in part. *)
Theorem overlaps_any_iff_nested candidate used :
  wf candidate -> Forall wf used ->
  overlaps_any candidate used = true <->
  exists u, In u used
            /\ (subnet_of candidate u = true \/ subnet_of u candidate = true).
Proof.
  intros Hc Hused. rewrite Forall_forall in Hused.
  rewrite overlaps_any_true. split.
  - intros (u & Hu & Ho). exists u. split; [assumption |].
    apply overlaps_nested; auto.
  - intros (u & Hu & Hn). exists u. split; [assumption |].
    apply overlaps_nested; auto.
Qed.

Lemma overlaps_any_iff_nested_witness :
  overlaps_any (cidr 10 0 1 0 24) [cidr 192 168 0 0 16; cidr 10 0 0 0 22] = true
  <-> exists u,
      In u [cidr 192 168 0 0 16; cidr 10 0 0 0 22]
      /\ (subnet_of (cidr 10 0 1 0 24) u = true
          \/ subnet_of u (cidr 10 0 1 0 24) = true).
Proof.
  apply overlaps_any_iff_nested; [wf_concrete |].
  repeat constructor; cbn; lia.
Defined.

(** ** PrefixMath *)

Lemma bit_length_le_32 n : 0 < n -> bit_length (n - 1) <= 32 <-> n <= 2 ^ 32.
Proof.
  intros Hn. destruct (bit_length_pred_spec n Hn) as (Hfit & Hmin).
  pose proof (bit_length_nonneg (n - 1)). split.
  - intros Hb.
    assert (2 ^ bit_length (n - 1) <= 2 ^ 32) by (apply Z.pow_le_mono_r; lia).
    lia.
  - intros Hle. apply Hmin; lia.
Qed.

Lemma pow2_bit_length_tight n :
  0 < n -> n <= 2 ^ bit_length (n - 1) < 2 * n.
Proof.
  intros Hn. destruct (bit_length_pred_spec n Hn) as (Hfit & _).
  split; [assumption |]. unfold bit_length.
  destruct (Z.eqb_spec (n - 1) 0) as [H1 | H1]; cbv iota;
    [rewrite Z.pow_0_r; lia |].
  rewrite Z.abs_eq by lia.
  pose proof (Z.log2_spec (n - 1) ltac:(lia)) as [Hlo _].
  pose proof (Z.log2_nonneg (n - 1)).
  rewrite Z.pow_add_r by lia. change (2 ^ 1) with 2. lia.
Qed.

(** X2: for a positive count [_next_power_of_two] answers a power of two
    that is at least the count and less than twice the count, and a power of
    two is its own answer; a count that is not positive raises. *)
Theorem next_power_of_two_tight n :
  (0 < n ->
   exists r,
     _next_power_of_two n = Ok r
     /\ (exists k, 0 <= k /\ r = 2 ^ k)
     /\ n <= r < 2 * n
     /\ (forall k, 0 <= k -> n = 2 ^ k -> r = n))
  /\ (n <= 0 -> _next_power_of_two n = Err (ValueError IPCountNotPositive)).
Proof.
  split.
  - intros Hn. exists (2 ^ bit_length (n - 1)).
    split; [apply next_power_of_two_ok; assumption |].
    split; [exists (bit_length (n - 1)); split;
            [apply bit_length_nonneg | reflexivity] |].
    split; [apply pow2_bit_length_tight; assumption |].
    intros k Hk Hnk.
    destruct (pow2_ceiling_bit_length n Hn) as (_ & Hge & Hmin).
    pose proof (Hmin k Hk ltac:(lia)). lia.
  - intros Hn. unfold _next_power_of_two.
    replace (n <=? 0) with true by (symmetry; apply Z.leb_le; lia).
    reflexivity.
Qed.

Lemma next_power_of_two_tight_witness :
  exists r,
    _next_power_of_two 37 = Ok r
    /\ (exists k, 0 <= k /\ r = 2 ^ k)
    /\ 37 <= r < 2 * 37
    /\ (forall k, 0 <= k -> 37 = 2 ^ k -> r = 37).
Proof.
  apply (proj1 (next_power_of_two_tight 37)). lia.
Defined.

(** X3: [prefix_len_for_total_addresses] succeeds exactly for the counts
    from 1 to 2^32, its answer is then between 0 and 32, and its last check
    never fires: no count makes it raise "Invalid prefix computed". *)
Theorem prefix_len_total_range n :
  ((exists p, prefix_len_for_total_addresses n = Ok p) <-> 1 <= n <= 2 ^ 32)
  /\ (forall p, prefix_len_for_total_addresses n = Ok p -> 0 <= p <= 32)
  /\ prefix_len_for_total_addresses n
     <> Err (ValueError InvalidPrefixComputed).
Proof.
  pose proof (bit_length_nonneg (n - 1)) as Hb.
  split; [| split].
  - split.
    + intros (p & Hp). apply prefix_len_inv in Hp as (Hn & Hle & _).
      apply bit_length_le_32 in Hle; lia.
    + intros Hn. exists (32 - bit_length (n - 1)).
      apply prefix_len_small; [lia |]. apply bit_length_le_32; lia.
  - intros p Hp. apply prefix_len_inv in Hp as (_ & Hle & ->). lia.
  - destruct (Z.le_gt_cases n 0) as [Hn | Hn].
    + rewrite prefix_len_nonpositive by assumption. discriminate.
    + destruct (Z.le_gt_cases (bit_length (n - 1)) 32) as [Hs | Hl].
      * rewrite prefix_len_small by assumption. discriminate.
      * rewrite prefix_len_large by assumption. discriminate.
Qed.

(** X4: [subnet_prefix_len_for_usable_ips] succeeds exactly for the counts
    from -4 to 2^32 - 5 (the count itself is not checked for being positive,
    only the count plus 5); its answer leaves room for the count and the 5
    reserved addresses in a range less than twice that large, and for one
    usable address or more the range is a /29 or larger. *)
Theorem subnet_prefix_len_room usable_ips :
  ((exists p, subnet_prefix_len_for_usable_ips usable_ips = Ok p)
   <-> -4 <= usable_ips <= 2 ^ 32 - 5)
  /\ (forall p,
         subnet_prefix_len_for_usable_ips usable_ips = Ok p ->
         usable_ips + 5 <= size_of p < 2 * (usable_ips + 5)
         /\ (1 <= usable_ips -> p <= 29)).
Proof.
  unfold subnet_prefix_len_for_usable_ips. split.
  - split.
    + intros (p & Hp). apply prefix_len_inv in Hp as (Hn & Hle & _).
      apply bit_length_le_32 in Hle; lia.
    + intros Hn. exists (32 - bit_length (usable_ips + 5 - 1)).
      apply prefix_len_small; [lia |]. apply bit_length_le_32; lia.
  - intros p Hp. apply prefix_len_inv in Hp as (Hn & Hle & ->).
    pose proof (bit_length_nonneg (usable_ips + 5 - 1)) as Hb.
    unfold size_of.
    replace (32 - (32 - bit_length (usable_ips + 5 - 1)))
      with (bit_length (usable_ips + 5 - 1)) by lia.
    split; [apply pow2_bit_length_tight; assumption |].
    intros Hu.
    destruct (bit_length_pred_spec (usable_ips + 5) Hn) as (Hfit & _).
    destruct (Z.le_gt_cases 3 (bit_length (usable_ips + 5 - 1))); [lia |].
    assert (2 ^ bit_length (usable_ips + 5 - 1) <= 2 ^ 2)
      by (apply Z.pow_le_mono_r; lia).
    change (2 ^ 2) with 4 in *. lia.
Qed.

(** ** SiblingSubnetPacker *)

Lemma allocate_host vnet a b :
  wf vnet -> prefixlen vnet = 32 -> 32 <= a -> 32 <= b ->
  allocate_two_subnets vnet a b = Err (RuntimeError UnableToAllocateTwoSubnets).
Proof.
  intros Hwf H32 Ha Hb. unfold allocate_two_subnets.
  rewrite allocate_guard_passed by lia.
  rewrite !subnets_host by assumption. cbn [bind find].
  rewrite overlaps_any_single, overlaps_refl by assumption. reflexivity.
Qed.

Lemma allocate_too_long vnet a b :
  wf vnet -> prefixlen vnet < 32 -> prefixlen vnet <= a -> prefixlen vnet <= b ->
  32 < Z.max a b ->
  allocate_two_subnets vnet a b = Err (ValueError PrefixLengthDiffInvalid).
Proof.
  intros Hwf H32 Ha Hb Hmax. unfold allocate_two_subnets.
  rewrite allocate_guard_passed by lia.
  destruct (Z.le_gt_cases (Z.min a b) 32) as [Hmin | Hmin].
  - rewrite (subnets_sub_ranges vnet (Z.min a b)) by (assumption || lia).
    cbn [bind].
    destruct (sub_ranges_head vnet (Z.min a b) ltac:(lia)) as (rest & ->).
    rewrite subnets_too_long by lia. reflexivity.
  - rewrite subnets_too_long by lia. reflexivity.
Qed.

(** The outcome of the packer, by cases on its arguments. *)
Lemma allocate_cases vnet a b :
  wf vnet ->
  ((a < prefixlen vnet \/ b < prefixlen vnet)
   /\ allocate_two_subnets vnet a b
      = Err (ValueError SubnetPrefixesOutsideVNet))
  \/ (prefixlen vnet <= Z.min a b /\ prefixlen vnet < 32 /\ 32 < Z.max a b
      /\ allocate_two_subnets vnet a b
         = Err (ValueError PrefixLengthDiffInvalid))
  \/ (prefixlen vnet <= Z.min a b
      /\ (prefixlen vnet = 32 \/ (Z.min a b = prefixlen vnet /\ Z.max a b <= 32))
      /\ allocate_two_subnets vnet a b
         = Err (RuntimeError UnableToAllocateTwoSubnets))
  \/ (prefixlen vnet < Z.min a b /\ Z.max a b <= 32
      /\ allocate_two_subnets vnet a b
         = if Z.min a b =? a
           then Ok (mkNet (network_address vnet) (Z.min a b),
                    mkNet (network_address vnet + size_of (Z.min a b))
                          (Z.max a b))
           else Ok (mkNet (network_address vnet + size_of (Z.min a b))
                          (Z.max a b),
                    mkNet (network_address vnet) (Z.min a b))).
Proof.
  intros Hwf. pose proof Hwf as (Hp & _).
  destruct (Z.lt_ge_cases a (prefixlen vnet)) as [Ha | Ha].
  { left. split; [auto |]. apply allocate_outside. auto. }
  destruct (Z.lt_ge_cases b (prefixlen vnet)) as [Hb | Hb].
  { left. split; [auto |]. apply allocate_outside. auto. }
  right. destruct (Z.eq_dec (prefixlen vnet) 32) as [H32 | H32].
  { right. left. split; [lia |]. split; [auto |].
    apply allocate_host; (assumption || lia). }
  destruct (Z.lt_ge_cases 32 (Z.max a b)) as [Hmax | Hmax].
  { left. split; [lia |]. split; [lia |]. split; [assumption |].
    apply allocate_too_long; (assumption || lia). }
  right. destruct (Z.eq_dec (Z.min a b) (prefixlen vnet)) as [Hmin | Hmin].
  - left. split; [lia |]. split; [auto |].
    apply allocate_full; (assumption || lia).
  - right. split; [lia |]. split; [assumption |].
    rewrite allocate_fits by (assumption || lia). reflexivity.
Qed.

(** X5: in a well-formed parent the packer raises the guard's error when a
    subnet prefix length is below the parent's; otherwise "cannot allocate"
    when the parent is a /32 or the smaller prefix length equals the
    parent's (with both at most 32), the [ipaddress] error when the parent is
    not a /32 and a prefix length exceeds 32, and succeeds in the remaining
    case only. *)
Theorem allocate_two_subnets_outcomes vnet a b :
  wf vnet ->
  (allocate_two_subnets vnet a b = Err (ValueError SubnetPrefixesOutsideVNet)
   <-> a < prefixlen vnet \/ b < prefixlen vnet)
  /\ (allocate_two_subnets vnet a b
      = Err (RuntimeError UnableToAllocateTwoSubnets)
      <-> prefixlen vnet <= Z.min a b
          /\ (prefixlen vnet = 32
              \/ (Z.min a b = prefixlen vnet /\ Z.max a b <= 32)))
  /\ (allocate_two_subnets vnet a b = Err (ValueError PrefixLengthDiffInvalid)
      <-> prefixlen vnet <= Z.min a b /\ prefixlen vnet < 32
          /\ 32 < Z.max a b)
  /\ ((exists webapp pe, allocate_two_subnets vnet a b = Ok (webapp, pe))
      <-> prefixlen vnet < Z.min a b /\ Z.max a b <= 32).
Proof.
  intros Hwf.
  destruct (allocate_cases vnet a b Hwf)
    as [(Hc & ->) | [(H1 & H2 & H3 & ->) | [(H1 & H2 & ->) | (H1 & H2 & ->)]]].
  all: try destruct (Z.min a b =? a).
  all: split; [| split; [| split]]; split; intros Hx;
    first [ discriminate | lia | tauto
          | destruct Hx as (? & ? & ?); discriminate
          | eauto ].
Qed.

Lemma allocate_two_subnets_outcomes_witness :
  (exists webapp pe,
      allocate_two_subnets (cidr 10 0 0 0 24) 26 28 = Ok (webapp, pe))
  <-> prefixlen (cidr 10 0 0 0 24) < Z.min 26 28 /\ Z.max 26 28 <= 32.
Proof.
  apply (allocate_two_subnets_outcomes (cidr 10 0 0 0 24) 26 28). wf_concrete.
Defined.

(** X6: when the packer succeeds in a well-formed parent, the web-app subnet
    has the first prefix length and the private-endpoint subnet the second;
    the larger of the two subnets (the web-app one when they are equal)
    starts at the parent's address and the other one right after it. *)
Theorem allocate_two_subnets_layout vnet a b webapp pe :
  wf vnet -> allocate_two_subnets vnet a b = Ok (webapp, pe) ->
  prefixlen webapp = a /\ prefixlen pe = b
  /\ (a <= b ->
      network_address webapp = network_address vnet
      /\ network_address pe = last_of webapp + 1)
  /\ (b < a ->
      network_address pe = network_address vnet
      /\ network_address webapp = last_of pe + 1).
Proof.
  intros Hwf H.
  destruct (allocate_cases vnet a b Hwf)
    as [(_ & E) | [(_ & _ & _ & E) | [(_ & _ & E) | (H1 & H2 & E)]]];
    rewrite E in H; try discriminate.
  unfold last_of.
  destruct (Z.eqb_spec (Z.min a b) a) as [Hmin | Hmin]; inversion H; subst;
    cbn [prefixlen network_address]; repeat split; try lia;
    try (intros; replace (Z.min a b) with a by lia; lia);
    try (intros; replace (Z.min a b) with b by lia; lia).
Qed.

Lemma allocate_two_subnets_layout_witness :
  prefixlen (cidr 10 0 0 64 27) = 27 /\ prefixlen (cidr 10 0 0 0 26) = 26
  /\ (27 <= 26 ->
      network_address (cidr 10 0 0 64 27) = network_address (cidr 10 0 0 0 24)
      /\ network_address (cidr 10 0 0 0 26) = last_of (cidr 10 0 0 64 27) + 1)
  /\ (26 < 27 ->
      network_address (cidr 10 0 0 0 26) = network_address (cidr 10 0 0 0 24)
      /\ network_address (cidr 10 0 0 64 27) = last_of (cidr 10 0 0 0 26) + 1).
Proof.
  apply (allocate_two_subnets_layout (cidr 10 0 0 0 24) 27 26);
    [wf_concrete | vm_compute; reflexivity].
Defined.

(** ** BoundedRangeAllocator *)

Lemma sorted_after {A : Type} (R : A -> A -> Prop) pre c post :
  StronglySorted R (pre ++ c :: post) -> Forall (R c) post.
Proof.
  induction pre as [| x pre IH]; cbn [app]; intros H.
  - inversion H. assumption.
  - inversion H. auto.
Qed.

Lemma overlaps_any_incl c used used' :
  incl used used' -> overlaps_any c used = true -> overlaps_any c used' = true.
Proof.
  intros Hincl H. apply overlaps_any_true in H as (u & Hu & Ho).
  apply overlaps_any_true. exists u. auto.
Qed.

(** X7: the range [first_free_subnet] returns has the requested prefix
    length, lies inside the base and overlaps no used range; and with more
    ranges in use the answer, if there still is one, does not come at a
    lower address. *)
Theorem first_free_subnet_monotone base prefix_len used c :
  wf base -> prefix_len <= 32 ->
  first_free_subnet base prefix_len used = Ok c ->
  prefixlen c = prefix_len
  /\ subnet_of c base = true
  /\ overlaps_any c used = false
  /\ (forall used' c',
         incl used used' ->
         first_free_subnet base prefix_len used' = Ok c' ->
         network_address c <= network_address c').
Proof.
  intros Hwf H32 H.
  destruct (first_free_subnet_prefixlen _ _ _ _ Hwf H32 H) as (Hc & Hp & Hge).
  destruct (first_free_subnet_ok _ _ _ _ Hwf H) as (_ & H1 & H2 & Hfree).
  split; [assumption |].
  split; [apply subnet_of_intervals; auto |].
  split; [assumption |].
  intros used' c' Hincl H'.
  rewrite first_free_subnet_find in H, H' by (assumption || lia).
  destruct (find _ (sub_ranges base prefix_len)) as [x |] eqn:Ef in H;
    [| discriminate].
  inversion H. subst x.
  destruct (find (fun c0 => negb (overlaps_any c0 used'))
                 (sub_ranges base prefix_len)) as [x |] eqn:Ef'; [| discriminate].
  inversion H'. subst x.
  apply find_first_iff in Ef as (pre & post & Heq & Hpre & _).
  apply find_some in Ef' as (Hin' & Hfree').
  apply negb_true_iff in Hfree'.
  rewrite Heq in Hin'. apply in_app_or in Hin' as [Hin' | [<- | Hin']].
  - rewrite Forall_forall in Hpre. apply Hpre in Hin'.
    apply negb_false_iff in Hin'.
    rewrite (overlaps_any_incl _ _ _ Hincl Hin') in Hfree'. discriminate.
  - lia.
  - pose proof (sub_ranges_increasing base prefix_len) as Hs.
    rewrite Heq in Hs. apply sorted_after in Hs.
    rewrite Forall_forall in Hs. apply Hs in Hin'. lia.
Qed.

Lemma first_free_subnet_monotone_witness :
  prefixlen (cidr 10 0 1 0 24) = 24
  /\ subnet_of (cidr 10 0 1 0 24) (cidr 10 0 0 0 22) = true
  /\ overlaps_any (cidr 10 0 1 0 24) [cidr 10 0 0 0 24] = false
  /\ (forall used' c',
         incl [cidr 10 0 0 0 24] used' ->
         first_free_subnet (cidr 10 0 0 0 22) 24 used' = Ok c' ->
         network_address (cidr 10 0 1 0 24) <= network_address c').
Proof.
  apply (first_free_subnet_monotone (cidr 10 0 0 0 22) 24 [cidr 10 0 0 0 24]);
    [wf_concrete | lia | vm_compute; reflexivity].
Defined.

(** What a successful attempt at one size returns. *)
Lemma attempt_ok_inv used base a b q plan :
  wf base -> attempt used base a b q = Ok plan ->
  prefixlen base <= q <= 32
  /\ first_free_subnet base q used = Ok (vnet plan)
  /\ wf (vnet plan) /\ prefixlen (vnet plan) = q
  /\ q < Z.min a b /\ Z.max a b <= 32
  /\ allocate_two_subnets (vnet plan) a b
     = Ok (webapp_subnet plan, private_endpoint_subnet plan).
Proof.
  intros Hwf H. unfold attempt in H.
  destruct (first_free_subnet base q used) as [v | e] eqn:Ev; [| discriminate].
  cbn [bind] in H.
  destruct (allocate_two_subnets v a b) as [[w pe] | e] eqn:Ea; [| discriminate].
  inversion H. subst plan. cbn [vnet webapp_subnet private_endpoint_subnet].
  destruct (first_free_subnet_ok _ _ _ _ Hwf Ev) as (Hv & _).
  assert (Hfit : prefixlen v < Z.min a b /\ Z.max a b <= 32).
  { destruct (allocate_cases v a b Hv)
      as [(_ & E) | [(_ & _ & _ & E) | [(_ & _ & E) | (H1 & H2 & _)]]];
      try (rewrite E in Ea; discriminate).
    auto. }
  assert (Hq : q <= 32).
  { destruct (Z.le_gt_cases q 32) as [| Hlong]; [assumption |]. exfalso.
    unfold first_free_subnet in Ev.
    destruct (q <? prefixlen base) eqn:Eq; [discriminate |].
    apply Z.ltb_ge in Eq.
    destruct (Z.eq_dec (prefixlen base) 32) as [Hb | Hb].
    - rewrite subnets_host in Ev by assumption. cbn [bind find] in Ev.
      destruct (negb (overlaps_any base used)); [| discriminate].
      inversion Ev. subst v. lia.
    - rewrite subnets_too_long in Ev by lia. discriminate. }
  destruct (first_free_subnet_prefixlen _ _ _ _ Hwf Hq Ev) as (_ & Hpv & Hge).
  repeat split; try assumption; try lia; apply Hv.
Qed.

(** X8: a plan returned by [build_plan] on a well-formed base has a network
    inside the base whose prefix length is between the base's and the
    requested one, and below both subnet prefix lengths; the subnets have the
    prefix lengths asked for, which are at most 32. *)
Theorem build_plan_shape used base vp a b plan :
  wf base -> build_plan used base vp a b = Ok plan ->
  prefixlen base <= prefixlen (vnet plan) <= vp
  /\ prefixlen (vnet plan) < Z.min a b /\ Z.max a b <= 32
  /\ subnet_of (vnet plan) base = true
  /\ prefixlen (webapp_subnet plan) = a
  /\ prefixlen (private_endpoint_subnet plan) = b.
Proof.
  intros Hwf H. apply build_plan_spec in H.
  destruct H as [(q & Hq & _ & _ & H) | (_ & H)]; [| discriminate].
  symmetry in H.
  destruct (attempt_ok_inv _ _ _ _ _ _ Hwf H)
    as (Hq32 & Hff & Hv & Hpv & Hmin & Hmax & Ha).
  destruct (first_free_subnet_ok _ _ _ _ Hwf Hff) as (_ & H1 & H2 & _).
  destruct (allocate_cases (vnet plan) a b Hv)
    as [(_ & E) | [(_ & _ & _ & E) | [(_ & _ & E) | (_ & _ & E)]]];
    rewrite E in Ha; try discriminate.
  split; [lia |]. split; [lia |]. split; [lia |].
  split; [apply subnet_of_intervals; auto |].
  destruct (Z.eqb_spec (Z.min a b) a); inversion Ha as [[Hw Hpe]];
    cbn [prefixlen]; lia.
Qed.

Lemma build_plan_shape_witness :
  let plan :=
    mkPlan (cidr 10 0 2 0 23) (cidr 10 0 2 0 24) (cidr 10 0 3 0 27) in
  prefixlen (cidr 10 0 0 0 22) <= prefixlen (vnet plan) <= 24
  /\ prefixlen (vnet plan) < Z.min 24 27 /\ Z.max 24 27 <= 32
  /\ subnet_of (vnet plan) (cidr 10 0 0 0 22) = true
  /\ prefixlen (webapp_subnet plan) = 24
  /\ prefixlen (private_endpoint_subnet plan) = 27.
Proof.
  apply (build_plan_shape [cidr 10 0 0 0 23] (cidr 10 0 0 0 22) 24 24 27);
    [wf_concrete | vm_compute; reflexivity].
Defined.

Lemma build_plan_too_long used base vp a b :
  wf base -> prefixlen base < 32 -> 32 < vp ->
  build_plan used base vp a b = Err (ValueError PrefixLengthDiffInvalid).
Proof.
  intros Hwf Hb Hvp.
  assert (E : attempt used base a b vp
              = Err (ValueError PrefixLengthDiffInvalid)).
  { unfold attempt, first_free_subnet.
    replace (vp <? prefixlen base) with false
      by (symmetry; apply Z.ltb_ge; lia).
    rewrite subnets_too_long by lia. reflexivity. }
  apply build_plan_spec. left. exists vp. repeat split; try lia.
  - intros (why & Hwhy). congruence.
  - congruence.
Qed.

(** X9: [build_plan] fails with "unable to allocate" without trying
    anything when the requested prefix length is below the base's; it raises
    the [ipaddress] error at once when the requested prefix length exceeds 32
    and the base is not a /32; and it returns no plan when a subnet prefix
    length is not above the base's or exceeds 32. *)
Theorem build_plan_edges used base vp a b :
  (vp < prefixlen base ->
   build_plan used base vp a b = Err (RuntimeError NoVNetSizeWorks))
  /\ (wf base -> prefixlen base < 32 -> 32 < vp ->
      build_plan used base vp a b = Err (ValueError PrefixLengthDiffInvalid))
  /\ (wf base -> Z.min a b <= prefixlen base \/ 32 < Z.max a b ->
      forall plan, build_plan used base vp a b <> Ok plan).
Proof.
  split; [| split].
  - intros Hlt. unfold build_plan. rewrite py_range_down.
    replace (Z.to_nat (vp - (prefixlen base - 1))) with 0%nat by lia.
    reflexivity.
  - apply build_plan_too_long.
  - intros Hwf Hbad plan H. apply build_plan_spec in H.
    destruct H as [(q & Hq & _ & _ & H) | (_ & H)]; [| discriminate].
    symmetry in H.
    destruct (attempt_ok_inv _ _ _ _ _ _ Hwf H) as (Hq32 & _ & _ & _ & Hmin & Hmax & _).
    lia.
Qed.

Lemma build_plan_edges_witness :
  build_plan [] (cidr 10 0 0 0 16) 8 27 27 = Err (RuntimeError NoVNetSizeWorks)
  /\ build_plan [] (cidr 10 0 0 0 16) 33 27 27
     = Err (ValueError PrefixLengthDiffInvalid)
  /\ forall plan, build_plan [] (cidr 10 0 0 0 16) 24 16 27 <> Ok plan.
Proof.
  destruct (build_plan_edges [] (cidr 10 0 0 0 16) 8 27 27) as (H1 & _).
  destruct (build_plan_edges [] (cidr 10 0 0 0 16) 33 27 27) as (_ & H2 & _).
  destruct (build_plan_edges [] (cidr 10 0 0 0 16) 24 16 27) as (_ & _ & H3).
  split; [apply H1; cbn; lia |].
  split; [apply H2; [wf_concrete | cbn; lia | lia] |].
  apply H3; [wf_concrete | cbn; lia].
Defined.

Lemma inside_overlaps_mono c v u :
  wf c -> wf v -> wf u ->
  network_address v <= network_address c -> last_of c <= last_of v ->
  overlaps c u = true -> overlaps v u = true.
Proof.
  intros Hc Hv Hu H1 H2. rewrite !overlaps_intervals by assumption.
  rewrite !Z.leb_le. pose proof (wf_last_bound c Hc). lia.
Qed.

(** A free range holds a free sub-range at every longer prefix length. *)
Lemma free_block_refines used base q vp v :
  wf base -> Forall wf used -> q <= vp <= 32 ->
  first_free_subnet base q used = Ok v ->
  exists c, In c (sub_ranges base vp) /\ overlaps_any c used = false.
Proof.
  intros Hwf Hused Hq Hv.
  destruct (first_free_subnet_prefixlen base q used v Hwf ltac:(lia) Hv)
    as (Hvw & Hpv & Hge).
  destruct (first_free_subnet_ok _ _ _ _ Hwf Hv) as (_ & _ & _ & Hfree).
  rewrite first_free_subnet_find in Hv by (assumption || lia).
  destruct (find _ (sub_ranges base q)) as [x |] eqn:Ef; [| discriminate].
  inversion Hv. subst x. apply find_some in Ef as (Hin & _).
  apply in_sub_ranges in Hin as (_ & i & Hi & Heq).
  pose proof (size_of_split q vp ltac:(lia)) as Hsplit.
  pose proof (pow2_pos (vp - q) ltac:(lia)) as Hk.
  pose proof (size_of_pos vp ltac:(lia)) as Hs.
  set (c := mkNet (network_address base + (i * 2 ^ (vp - q)) * size_of vp) vp).
  assert (Hidx : 0 <= i * 2 ^ (vp - q) < 2 ^ (vp - prefixlen base)).
  { replace (vp - prefixlen base) with ((q - prefixlen base) + (vp - q)) by lia.
    rewrite Z.pow_add_r by lia. nia. }
  destruct (sub_range_inside base vp (i * 2 ^ (vp - q)) Hwf ltac:(lia) Hidx)
    as (Hcw & _ & _).
  fold c in Hcw. exists c. split.
  - apply in_sub_ranges. split; [lia |]. exists (i * 2 ^ (vp - q)). auto.
  - apply overlaps_any_false. apply overlaps_any_false in Hfree.
    rewrite Forall_forall in *. intros u Hu.
    destruct (overlaps c u) eqn:Eo; [| reflexivity].
    rewrite <- (Hfree u Hu). symmetry.
    apply (inside_overlaps_mono c v u Hcw Hvw (Hused u Hu)); [| | assumption].
    + rewrite Heq. unfold c. cbn [network_address]. nia.
    + rewrite Heq. unfold c, last_of. cbn [network_address prefixlen]. nia.
Qed.

(** With subnets that fit the requested size, a free range at that size is
    packed at once. *)
Lemma build_plan_fits_first used base vp a b v :
  wf base -> vp < Z.min a b -> Z.max a b <= 32 ->
  first_free_subnet base vp used = Ok v ->
  exists webapp pe,
    allocate_two_subnets v a b = Ok (webapp, pe)
    /\ build_plan used base vp a b = Ok (mkPlan v webapp pe).
Proof.
  intros Hwf Hmin Hmax Hv.
  destruct (first_free_subnet_prefixlen base vp used v Hwf ltac:(lia) Hv)
    as (Hvw & Hpv & Hge).
  destruct (allocate_cases v a b Hvw)
    as [(Hc & _) | [(_ & _ & Hc & _) | [(_ & Hc & _) | (_ & _ & E)]]];
    try lia.
  assert (Hok : exists webapp pe, allocate_two_subnets v a b = Ok (webapp, pe))
    by (rewrite E; destruct (Z.min a b =? a); eauto).
  destruct Hok as (w & pe & Hok). exists w, pe. split; [assumption |].
  assert (Hat : attempt used base a b vp = Ok (mkPlan v w pe))
    by (unfold attempt; rewrite Hv; cbn [bind]; rewrite Hok; reflexivity).
  apply build_plan_spec. left. exists vp. repeat split; try lia.
  - intros (why & Hwhy). congruence.
  - congruence.
Qed.

(** Without a free range at the requested size there is none at a larger
    one. *)
Lemma build_plan_fits_none used base vp a b :
  wf base -> Forall wf used -> prefixlen base <= vp <= 32 ->
  (forall v, first_free_subnet base vp used <> Ok v) ->
  build_plan used base vp a b = Err (RuntimeError NoVNetSizeWorks).
Proof.
  intros Hwf Hused Hvp Hno. apply build_plan_spec. right.
  split; [| reflexivity].
  intros q Hq. unfold attempt.
  destruct (first_free_subnet base q used) as [v | e] eqn:Ev.
  - exfalso.
    destruct (free_block_refines used base q vp v Hwf Hused ltac:(lia) Ev)
      as (c & Hin & Hfree).
    destruct (find (fun c0 => negb (overlaps_any c0 used))
                   (sub_ranges base vp)) as [x |] eqn:Ef.
    + apply (Hno x). rewrite first_free_subnet_find by (assumption || lia).
      rewrite Ef. reflexivity.
    + rewrite find_none_iff in Ef. specialize (Ef c Hin).
      rewrite Hfree in Ef. discriminate.
  - rewrite first_free_subnet_find in Ev by (assumption || lia).
    destruct (find _ _); [discriminate |]. inversion Ev. cbn [bind].
    eexists. reflexivity.
Qed.

(** X10: when both subnet prefix lengths are above the requested one (and at
    most 32) and the used ranges are well formed, [build_plan] does not
    enlarge the network: it packs the first free range at the requested
    prefix length, and fails only when there is none. *)
Theorem build_plan_no_expansion used base vp a b :
  wf base -> Forall wf used ->
  prefixlen base <= vp -> vp < Z.min a b -> Z.max a b <= 32 ->
  (forall v,
      first_free_subnet base vp used = Ok v ->
      exists webapp pe,
        allocate_two_subnets v a b = Ok (webapp, pe)
        /\ build_plan used base vp a b = Ok (mkPlan v webapp pe))
  /\ ((forall v, first_free_subnet base vp used <> Ok v) ->
      build_plan used base vp a b = Err (RuntimeError NoVNetSizeWorks))
  /\ (forall plan,
         build_plan used base vp a b = Ok plan -> prefixlen (vnet plan) = vp).
Proof.
  intros Hwf Hused Hge Hmin Hmax.
  split; [intros v; apply build_plan_fits_first; assumption |].
  split; [apply build_plan_fits_none; (assumption || lia) |].
  intros plan Hplan.
  destruct (first_free_subnet base vp used) as [v | e] eqn:Ev.
  - destruct (build_plan_fits_first used base vp a b v Hwf Hmin Hmax Ev)
      as (w & pe & _ & Hbp).
    rewrite Hbp in Hplan. inversion Hplan. cbn [vnet].
    apply (first_free_subnet_prefixlen base vp used v Hwf ltac:(lia) Ev).
  - rewrite build_plan_fits_none in Hplan;
      [discriminate | assumption | assumption | lia |].
    intros v. rewrite Ev. discriminate.
Qed.

Lemma build_plan_no_expansion_witness :
  exists webapp pe,
    allocate_two_subnets (cidr 10 0 1 0 24) 27 26 = Ok (webapp, pe)
    /\ build_plan [cidr 10 0 0 0 24] (cidr 10 0 0 0 16) 24 27 26
       = Ok (mkPlan (cidr 10 0 1 0 24) webapp pe).
Proof.
  assert (Hused : Forall wf [cidr 10 0 0 0 24])
    by (repeat constructor; cbn; lia).
  destruct (build_plan_no_expansion [cidr 10 0 0 0 24] (cidr 10 0 0 0 16)
              24 27 26 ltac:(wf_concrete) Hused
              ltac:(cbn; lia) ltac:(lia) ltac:(lia)) as (H & _).
  apply H. vm_compute. reflexivity.
Defined.

(** ** OctetRolloverAllocator: the pool and the generator's checks *)

Lemma octets_of_address addr :
  addr / 2 ^ 16 = 256 * first_octet addr + second_octet addr.
Proof.
  unfold first_octet, second_octet.
  change (2 ^ 24) with (2 ^ 16 * 256).
  rewrite <- Z.div_div by (cbn; lia).
  apply Z.div_mod. lia.
Qed.

Lemma pool_for_octet_search_ten start_base :
  wf start_base -> prefixlen start_base = 16 ->
  first_octet (network_address start_base) = 10 ->
  _pool_for_octet_search start_base = Ok (ten_slash8, (0, 256)).
Proof.
  intros Hwf H16 H10. pose proof Hwf as (_ & Haddr & _).
  unfold _pool_for_octet_search. rewrite H16. cbn [Z.eqb Pos.eqb negb].
  replace (contains ten_slash8 (network_address start_base)) with true;
    [reflexivity |].
  symmetry. apply (contains_iff _ _ ten_slash8_wf Haddr).
  unfold first_octet in H10. unfold last_of, size_of, ten_slash8.
  cbn [network_address prefixlen]. change (2 ^ (32 - 8)) with (2 ^ 24).
  pose proof (Z.div_mod (network_address start_base) (2 ^ 24) ltac:(cbn; lia)).
  pose proof (Z.mod_pos_bound (network_address start_base) (2 ^ 24)
                ltac:(cbn; lia)).
  lia.
Qed.

Lemma pool_for_octet_search_172 start_base :
  wf start_base -> prefixlen start_base = 16 ->
  first_octet (network_address start_base) = 172 ->
  16 <= second_octet (network_address start_base) <= 31 ->
  _pool_for_octet_search start_base = Ok (one_seventy_two_slash12, (16, 32)).
Proof.
  intros Hwf H16 H172 Hsec. pose proof Hwf as (_ & Haddr & _).
  pose proof (octets_of_address (network_address start_base)) as Hoct.
  rewrite H172 in Hoct.
  pose proof (Z.div_mod (network_address start_base) (2 ^ 16) ltac:(cbn; lia))
    as Hd.
  pose proof (Z.mod_pos_bound (network_address start_base) (2 ^ 16)
                ltac:(cbn; lia)) as Hm.
  change (2 ^ 16) with 65536 in *.
  unfold _pool_for_octet_search. rewrite H16. cbn [Z.eqb Pos.eqb negb].
  replace (contains ten_slash8 (network_address start_base)) with false.
  - replace (contains one_seventy_two_slash12 (network_address start_base))
      with true; [reflexivity |].
    symmetry. apply (contains_iff _ _ one_seventy_two_slash12_wf Haddr).
    unfold last_of, size_of, one_seventy_two_slash12.
    cbn [network_address prefixlen].
    change (2 ^ (32 - 12)) with 1048576. change (2 ^ 24) with 16777216.
    change (2 ^ 16) with 65536. lia.
  - symmetry. destruct (contains ten_slash8 (network_address start_base)) eqn:E;
      [| reflexivity].
    apply (contains_iff _ _ ten_slash8_wf Haddr) in E.
    unfold last_of, size_of, ten_slash8 in E.
    cbn [network_address prefixlen] in E.
    change (2 ^ (32 - 8)) with 16777216 in E.
    change (2 ^ 24) with 16777216 in E. lia.
Qed.

(** X11: for a well-formed base, [_pool_for_octet_search] succeeds exactly
    when the base is a /16 whose first octet is 10, with the pool 10.0.0.0/8
    and the second octets 0 to 255, or whose first octet is 172 and second
    octet is from 16 to 31, with the pool 172.16.0.0/12 and the second octets
    16 to 31; the base then lies inside the pool; a base that is not a /16
    is rejected before its address is looked at. *)
Theorem pool_for_octet_search_iff start_base :
  wf start_base ->
  (forall pool allowed,
      _pool_for_octet_search start_base = Ok (pool, allowed) <->
      prefixlen start_base = 16
      /\ ((first_octet (network_address start_base) = 10
           /\ pool = ten_slash8 /\ allowed = (0, 256))
          \/ (first_octet (network_address start_base) = 172
              /\ 16 <= second_octet (network_address start_base) <= 31
              /\ pool = one_seventy_two_slash12 /\ allowed = (16, 32))))
  /\ (forall pool allowed,
         _pool_for_octet_search start_base = Ok (pool, allowed) ->
         subnet_of start_base pool = true)
  /\ (prefixlen start_base <> 16 ->
      _pool_for_octet_search start_base
      = Err (ValueError OctetSearchNeedsSlash16)).
Proof.
  intros Hwf.
  assert (Hinv : forall pool allowed,
    _pool_for_octet_search start_base = Ok (pool, allowed) ->
    prefixlen start_base = 16
    /\ ((first_octet (network_address start_base) = 10
         /\ pool = ten_slash8 /\ allowed = (0, 256))
        \/ (first_octet (network_address start_base) = 172
            /\ 16 <= second_octet (network_address start_base) <= 31
            /\ pool = one_seventy_two_slash12 /\ allowed = (16, 32)))).
  { intros pool [lo hi] H.
    destruct (pool_for_octet_search_ok _ _ _ _ Hwf H)
      as (H16 & Hs & [(-> & -> & -> & Ha) | (-> & -> & -> & Ha)]).
    - split; [assumption |]. left. auto.
    - split; [assumption |]. right. repeat split; auto; lia. }
  split; [| split].
  - intros pool allowed. split; [apply Hinv |].
    intros (H16 & [(H10 & -> & ->) | (H172 & Hs & -> & ->)]).
    + apply pool_for_octet_search_ten; assumption.
    + apply pool_for_octet_search_172; assumption.
  - intros pool allowed H. destruct (Hinv pool allowed H) as (H16 & Hcase).
    pose proof Hwf as (_ & Haddr & Hmod). rewrite H16 in Hmod.
    change (32 - 16) with 16 in Hmod.
    pose proof (octets_of_address (network_address start_base)) as Hoct.
    pose proof (Z.div_mod (network_address start_base) (2 ^ 16) ltac:(cbn; lia))
      as Hd.
    rewrite Hmod in Hd.
    assert (Hsec : 0 <= second_octet (network_address start_base) < 256)
      by (apply Z.mod_pos_bound; lia).
    set (k := network_address start_base / 2 ^ 16) in *.
    change (2 ^ 16) with 65536 in Hd.
    assert (Hpw : wf pool).
    { destruct Hcase as [(_ & -> & _) | (_ & _ & -> & _)];
        [apply ten_slash8_wf | apply one_seventy_two_slash12_wf]. }
    apply subnet_of_intervals; [assumption | assumption |].
    unfold last_of, size_of. rewrite H16.
    destruct Hcase as [(H10 & -> & _) | (H172 & Hs & -> & _)].
    + unfold ten_slash8. cbn [network_address prefixlen].
      change (2 ^ (32 - 16)) with 65536. change (2 ^ (32 - 8)) with 16777216.
      change (2 ^ 24) with 16777216. lia.
    + unfold one_seventy_two_slash12. cbn [network_address prefixlen].
      change (2 ^ (32 - 16)) with 65536. change (2 ^ (32 - 12)) with 1048576.
      change (2 ^ 24) with 16777216. change (2 ^ 16) with 65536. lia.
  - intros H16. unfold _pool_for_octet_search.
    destruct (Z.eqb_spec (prefixlen start_base) 16); [contradiction |].
    reflexivity.
Qed.

Lemma pool_for_octet_search_iff_witness :
  _pool_for_octet_search (cidr 172 20 0 0 16)
  = Ok (one_seventy_two_slash12, (16, 32))
  /\ subnet_of (cidr 172 20 0 0 16) one_seventy_two_slash12 = true.
Proof.
  destruct (pool_for_octet_search_iff (cidr 172 20 0 0 16) ltac:(wf_concrete))
    as (Hiff & Hin & _).
  assert (H : _pool_for_octet_search (cidr 172 20 0 0 16)
              = Ok (one_seventy_two_slash12, (16, 32))).
  { apply Hiff. split; [reflexivity |]. right.
    repeat split; vm_compute; congruence. }
  split; [exact H | apply (Hin _ _ H)].
Defined.

Lemma iter_vnets_pool_error start_base vp t0 e :
  24 <= vp -> _pool_for_octet_search start_base = Err e ->
  _iter_third_then_second_octet_vnets start_base vp t0 = Err e.
Proof.
  intros Hvp Hpool. unfold _iter_third_then_second_octet_vnets.
  replace (vp <? 24) with false by (symmetry; apply Z.ltb_ge; lia).
  rewrite Hpool. reflexivity.
Qed.

Lemma iter_vnets_third_error start_base vp t0 found :
  24 <= vp -> _pool_for_octet_search start_base = Ok found ->
  ~ 0 <= t0 <= 255 ->
  _iter_third_then_second_octet_vnets start_base vp t0
  = Err (ValueError StartThirdOctetOutOfRange).
Proof.
  intros Hvp Hpool Ht0. unfold _iter_third_then_second_octet_vnets.
  replace (vp <? 24) with false by (symmetry; apply Z.ltb_ge; lia).
  rewrite Hpool. cbn [bind]. destruct found as [pool allowed].
  replace ((0 <=? t0) && (t0 <=? 255)) with false; [reflexivity |].
  symmetry. apply andb_false_iff. rewrite !Z.leb_gt. lia.
Qed.

(** X12: on a well-formed base the generator's checks come in this order: a
    prefix length below 24, then the pool's own errors, then a starting third
    octet outside 0 to 255, then (from [ipaddress]) a prefix length above 32;
    it yields candidates exactly when none of them fires, and its check of
    the base's second octet against the pool never fires. *)
Theorem iter_vnets_checks start_base vp t0 :
  wf start_base ->
  (forall e,
      24 <= vp -> _pool_for_octet_search start_base = Err e ->
      _iter_third_then_second_octet_vnets start_base vp t0 = Err e)
  /\ (forall found,
         24 <= vp -> _pool_for_octet_search start_base = Ok found ->
         ~ 0 <= t0 <= 255 ->
         _iter_third_then_second_octet_vnets start_base vp t0
         = Err (ValueError StartThirdOctetOutOfRange))
  /\ (forall found,
         32 < vp -> _pool_for_octet_search start_base = Ok found ->
         0 <= t0 <= 255 ->
         _iter_third_then_second_octet_vnets start_base vp t0
         = Err (ValueError PrefixLengthDiffInvalid))
  /\ ((exists vnets,
          _iter_third_then_second_octet_vnets start_base vp t0 = Ok vnets)
      <-> 24 <= vp <= 32 /\ 0 <= t0 <= 255
          /\ exists found, _pool_for_octet_search start_base = Ok found)
  /\ _iter_third_then_second_octet_vnets start_base vp t0
     <> Err (ValueError BaseOutsideAllowedPool).
Proof.
  intros Hwf.
  assert (Hlong : forall found,
    32 < vp -> _pool_for_octet_search start_base = Ok found ->
    0 <= t0 <= 255 ->
    _iter_third_then_second_octet_vnets start_base vp t0
    = Err (ValueError PrefixLengthDiffInvalid)).
  { intros [pool [lo hi]] Hvp Hpool Ht0.
    apply (iter_vnets_too_long _ _ _ _ _ _ Hwf Hpool Hvp Ht0). }
  split; [intros e; apply iter_vnets_pool_error |].
  split; [intros found; apply iter_vnets_third_error |].
  split; [exact Hlong |]. split.
  - split.
    + intros (vnets & H).
      destruct (iter_vnets_ok_inv _ _ _ _ Hwf H)
        as (pool & lo & hi & Hpool & Hvp & Ht0 & _).
      eauto.
    + intros (Hvp & Ht0 & [pool [lo hi]] & Hpool).
      rewrite (iter_vnets_candidates _ _ _ _ _ _ Hwf Hpool Hvp Ht0). eauto.
  - destruct (Z.lt_ge_cases vp 24) as [Hlt | Hge].
    { rewrite iter_vnets_too_large by assumption. discriminate. }
    destruct (_pool_for_octet_search start_base) as [found | e] eqn:Hpool.
    2:{ rewrite (iter_vnets_pool_error _ _ _ _ Hge Hpool).
        unfold _pool_for_octet_search in Hpool.
        destruct (negb (prefixlen start_base =? 16)); [congruence |].
        destruct (contains ten_slash8 _); [discriminate |].
        destruct (contains one_seventy_two_slash12 _); [discriminate |].
        congruence. }
    destruct (Z.le_gt_cases 0 t0) as [H0 | H0];
      [destruct (Z.le_gt_cases t0 255) as [H255 | H255] |].
    + destruct (Z.lt_ge_cases 32 vp) as [Hl | Hs].
      * rewrite (Hlong found Hl eq_refl) by lia. discriminate.
      * destruct found as [pool [lo hi]].
        rewrite (iter_vnets_candidates _ _ _ _ _ _ Hwf Hpool) by lia.
        discriminate.
    + rewrite (iter_vnets_third_error _ _ _ _ Hge Hpool) by lia. discriminate.
    + rewrite (iter_vnets_third_error _ _ _ _ Hge Hpool) by lia. discriminate.
Qed.

Lemma iter_vnets_checks_witness :
  (exists vnets,
      _iter_third_then_second_octet_vnets (cidr 10 255 0 0 16) 26 255
      = Ok vnets)
  <-> 24 <= 26 <= 32 /\ 0 <= 255 <= 255
      /\ exists found, _pool_for_octet_search (cidr 10 255 0 0 16) = Ok found.
Proof.
  apply (iter_vnets_checks (cidr 10 255 0 0 16) 26 255). wf_concrete.
Defined.

(** ** OctetRolloverAllocator: the candidates *)

Lemma length_zrange lo hi : length (zrange lo hi) = Z.to_nat (hi - lo).
Proof. unfold zrange. now rewrite length_map, length_seq. Qed.

Lemma length_flat_map_const {A B : Type} (f : A -> list B) (k : nat) l :
  (forall x, In x l -> length (f x) = k) ->
  length (flat_map f l) = (length l * k)%nat.
Proof.
  induction l as [| x l IH]; intros H; cbn [flat_map length]; [reflexivity |].
  rewrite length_app, (H x) by (left; reflexivity).
  rewrite IH by (intros; apply H; now right). lia.
Qed.

Lemma length_block_candidates vp a s t :
  24 <= vp <= 32 ->
  length (block_candidates vp (bucket_of a s t)) = Z.to_nat (2 ^ (vp - 24)).
Proof.
  intros Hvp. unfold block_candidates.
  destruct (Z.eqb_spec vp 24) as [-> | Hne]; [reflexivity |].
  unfold sub_ranges. cbn [prefixlen bucket_of].
  replace ((24 <=? vp) && (vp <=? 32)) with true
    by (symmetry; apply andb_true_iff; split; apply Z.leb_le; lia).
  now rewrite length_map, length_seq.
Qed.

Lemma length_grid_order s0 stop t0 :
  0 <= t0 <= 255 -> s0 < stop ->
  Z.of_nat (length (grid_order s0 stop t0))
  = 256 - t0 + 256 * (stop - s0 - 1).
Proof.
  intros Ht0 Hs. unfold grid_order.
  rewrite length_app, length_map, length_zrange.
  rewrite (length_flat_map_const _ 256)
    by (intros; rewrite length_map, length_zrange; reflexivity).
  rewrite length_zrange. lia.
Qed.

Lemma in_octet_candidates a s0 stop t0 vp c :
  In c (octet_candidates a s0 stop t0 vp) ->
  exists s t,
    ((s = s0 /\ t0 <= t < 256) \/ (s0 < s < stop /\ 0 <= t < 256))
    /\ In c (block_candidates vp (bucket_of a s t)).
Proof.
  unfold octet_candidates. intros Hin.
  apply in_flat_map in Hin as ([s t] & Hst & Hc). cbn [fst snd] in Hc.
  apply in_grid_order in Hst. eauto.
Qed.

Lemma block_candidates_inside vp a s t c :
  0 <= a <= 255 -> 0 <= s <= 255 -> 0 <= t <= 255 -> 24 <= vp ->
  In c (block_candidates vp (bucket_of a s t)) ->
  wf c /\ prefixlen c = vp
  /\ network_address (bucket_of a s t) <= network_address c
  /\ last_of c <= last_of (bucket_of a s t).
Proof.
  intros Ha Hs Ht Hvp Hin. pose proof (bucket_wf a s t Ha Hs Ht) as Hb.
  unfold block_candidates in Hin.
  destruct (Z.eqb_spec vp 24) as [-> | Hne].
  - destruct Hin as [<- | []]. repeat split; try apply Hb; lia.
  - apply (sub_ranges_inside _ _ _ Hb Hin).
Qed.

(** X13: on valid arguments the generator yields
    (256 - start third octet + 256 * (later second octets of the pool))
    * 2^(prefix length - 24) candidates; every one has the requested prefix
    length, lies inside the pool, and starts at or after the starting
    block: the blocks below the starting third octet are never tried. *)
Theorem iter_vnets_count start_base vp t0 vnets pool lo hi :
  wf start_base ->
  _pool_for_octet_search start_base = Ok (pool, (lo, hi)) ->
  _iter_third_then_second_octet_vnets start_base vp t0 = Ok vnets ->
  Z.of_nat (length vnets)
  = (256 - t0
     + 256 * (hi - second_octet (network_address start_base) - 1))
    * 2 ^ (vp - 24)
  /\ Forall
       (fun c =>
          prefixlen c = vp
          /\ subnet_of c pool = true
          /\ network_address
               (bucket_of (first_octet (network_address start_base))
                  (second_octet (network_address start_base)) t0)
             <= network_address c)
       vnets.
Proof.
  intros Hwf Hpool Hiter.
  destruct (iter_vnets_ok_inv _ _ _ _ Hwf Hiter)
    as (pool' & lo' & hi' & Hpool' & Hvp & Ht0 & ->).
  rewrite Hpool in Hpool'. inversion Hpool'. subst pool' lo' hi'.
  destruct (pool_for_octet_search_ok _ _ _ _ Hwf Hpool) as (_ & Hs & Hcase).
  set (a := first_octet (network_address start_base)) in *.
  set (s0 := second_octet (network_address start_base)) in *.
  split.
  - unfold octet_candidates.
    rewrite (length_flat_map_const _ (Z.to_nat (2 ^ (vp - 24))))
      by (intros [s t] _; apply length_block_candidates; assumption).
    pose proof (pow2_pos (vp - 24) ltac:(lia)).
    rewrite Nat2Z.inj_mul, length_grid_order by lia. lia.
  - apply Forall_forall. intros c Hc.
    destruct (octet_candidates_inside _ _ _ _ _ _ _ Hwf Hpool Ht0 Hc)
      as (Hcw & Hc1 & Hc2).
    apply in_octet_candidates in Hc as (s & t & Hst & Hc).
    assert (Hpw : wf pool).
    { destruct Hcase as [(-> & _) | (-> & _)];
        [apply ten_slash8_wf | apply one_seventy_two_slash12_wf]. }
    assert (Ha : 0 <= a <= 255)
      by (destruct Hcase as [(_ & _ & _ & ->) | (_ & _ & _ & ->)]; lia).
    assert (Hhi : 0 <= lo /\ hi <= 256)
      by (destruct Hcase as [(_ & -> & -> & _) | (_ & -> & -> & _)]; lia).
    destruct (block_candidates_inside vp a s t c Ha ltac:(lia) ltac:(lia)
                ltac:(lia) Hc) as (_ & Hp & Hlow & _).
    split; [assumption |].
    split; [apply subnet_of_intervals; auto |].
    unfold bucket_of in *. cbn [network_address] in *.
    change (2 ^ 16) with 65536 in *. change (2 ^ 8) with 256 in *. lia.
Qed.

Lemma iter_vnets_count_witness :
  Z.of_nat (length [cidr 172 31 254 0 25; cidr 172 31 254 128 25;
                    cidr 172 31 255 0 25; cidr 172 31 255 128 25])
  = (256 - 254
     + 256 * (32 - second_octet (network_address (cidr 172 31 0 0 16)) - 1))
    * 2 ^ (25 - 24)
  /\ Forall
       (fun c =>
          prefixlen c = 25
          /\ subnet_of c one_seventy_two_slash12 = true
          /\ network_address
               (bucket_of (first_octet (network_address (cidr 172 31 0 0 16)))
                  (second_octet (network_address (cidr 172 31 0 0 16))) 254)
             <= network_address c)
       [cidr 172 31 254 0 25; cidr 172 31 254 128 25;
        cidr 172 31 255 0 25; cidr 172 31 255 128 25].
Proof.
  apply (iter_vnets_count (cidr 172 31 0 0 16) 25 254 _
           one_seventy_two_slash12 16 32);
    [wf_concrete | reflexivity | vm_compute; reflexivity].
Defined.

Lemma sorted_app {A : Type} (R : A -> A -> Prop) l1 l2 :
  StronglySorted R l1 -> StronglySorted R l2 ->
  (forall x y, In x l1 -> In y l2 -> R x y) ->
  StronglySorted R (l1 ++ l2).
Proof.
  induction l1 as [| x l1 IH]; intros H1 H2 H12; cbn [app]; [assumption |].
  inversion H1 as [| ? ? Hs Hx]. subst. constructor.
  - apply IH; [assumption | assumption |]. intros; apply H12; auto. now right.
  - apply Forall_app. split; [assumption |].
    apply Forall_forall. intros y Hy. apply H12; [now left | assumption].
Qed.

Lemma sorted_flat_map {A B : Type} (Q : A -> A -> Prop) (R : B -> B -> Prop)
    (f : A -> list B) l :
  StronglySorted Q l ->
  (forall x, In x l -> StronglySorted R (f x)) ->
  (forall x y b c, In x l -> In y l -> Q x y ->
                   In b (f x) -> In c (f y) -> R b c) ->
  StronglySorted R (flat_map f l).
Proof.
  induction l as [| x l IH]; intros Hl Hf Hcross; cbn [flat_map];
    [constructor |].
  inversion Hl as [| ? ? Hs Hx]. subst. apply sorted_app.
  - apply Hf. now left.
  - apply IH; [assumption | |].
    + intros; apply Hf; now right.
    + intros x' y b c Hx' Hy. apply Hcross; now right.
  - intros b c Hb Hc. apply in_flat_map in Hc as (y & Hy & Hc).
    rewrite Forall_forall in Hx.
    apply (Hcross x y b c); [now left | now right | apply Hx, Hy | | ]; assumption.
Qed.

Lemma sorted_zrange lo hi : StronglySorted Z.lt (zrange lo hi).
Proof. unfold zrange. apply sorted_map_seq. intros; lia. Qed.

(** The order of the grid: by second octet, then by third octet. *)
Definition grid_lt (x y : Z * Z) : Prop :=
  fst x < fst y \/ (fst x = fst y /\ snd x < snd y).

Lemma sorted_map_pair s l :
  StronglySorted Z.lt l -> StronglySorted grid_lt (map (pair s) l).
Proof.
  induction 1 as [| t l Hs IH Ht]; cbn [map]; constructor; [assumption |].
  apply Forall_forall. intros y Hy. apply in_map_iff in Hy as (t' & <- & Ht').
  rewrite Forall_forall in Ht. right. cbn. split; [reflexivity | auto].
Qed.

Lemma sorted_grid_order s0 stop t0 :
  StronglySorted grid_lt (grid_order s0 stop t0).
Proof.
  unfold grid_order. apply sorted_app.
  - apply sorted_map_pair, sorted_zrange.
  - apply (sorted_flat_map Z.lt).
    + apply sorted_zrange.
    + intros s _. apply sorted_map_pair, sorted_zrange.
    + intros s s' b c _ _ Hss Hb Hc.
      apply in_map_iff in Hb as (t & <- & _).
      apply in_map_iff in Hc as (t' & <- & _). left. assumption.
  - intros x y Hx Hy. apply in_map_iff in Hx as (t & <- & _).
    apply in_flat_map in Hy as (s & Hs & Hy).
    apply in_map_iff in Hy as (t' & <- & _). apply in_zrange in Hs.
    left. cbn. lia.
Qed.

Lemma sub_ranges_apart n len :
  wf n ->
  StronglySorted (fun x y => last_of x < network_address y) (sub_ranges n len).
Proof.
  intros Hwf. unfold sub_ranges.
  destruct ((prefixlen n <=? len) && (len <=? 32)) eqn:E; [| constructor].
  apply andb_true_iff in E as (_ & E). apply Z.leb_le in E.
  apply sorted_map_seq. intros i j Hij. unfold last_of.
  cbn [network_address prefixlen]. pose proof (size_of_pos len E). nia.
Qed.

(** X14: on valid arguments every candidate the generator yields lies
    entirely below the candidates that come after it: the candidates are in
    increasing address order across blocks, pairwise disjoint, and none is
    yielded twice. *)
Theorem iter_vnets_increasing start_base vp t0 vnets :
  wf start_base ->
  _iter_third_then_second_octet_vnets start_base vp t0 = Ok vnets ->
  StronglySorted (fun x y => last_of x < network_address y) vnets
  /\ NoDup vnets.
Proof.
  intros Hwf Hiter.
  destruct (iter_vnets_ok_inv _ _ _ _ Hwf Hiter)
    as (pool & lo & hi & Hpool & Hvp & Ht0 & Hvnets).
  destruct (pool_for_octet_search_ok _ _ _ _ Hwf Hpool) as (_ & Hs & Hcase).
  assert (Hsorted :
    StronglySorted (fun x y => last_of x < network_address y) vnets).
  { rewrite Hvnets.
    set (a := first_octet (network_address start_base)) in *.
    set (s0 := second_octet (network_address start_base)) in *.
    assert (Ha : 0 <= a <= 255)
      by (destruct Hcase as [(_ & _ & _ & ->) | (_ & _ & _ & ->)]; lia).
    assert (Hhi : 0 <= lo /\ hi <= 256)
      by (destruct Hcase as [(_ & -> & -> & _) | (_ & -> & -> & _)]; lia).
    assert (Hgrid : forall s t, In (s, t) (grid_order s0 hi t0) ->
                      0 <= s <= 255 /\ 0 <= t <= 255)
      by (intros s t Hin; apply in_grid_order in Hin; lia).
    unfold octet_candidates. apply (sorted_flat_map grid_lt).
    - apply sorted_grid_order.
    - intros [s t] Hin. cbn [fst snd]. destruct (Hgrid s t Hin).
      unfold block_candidates. destruct (vp =? 24).
      + repeat constructor.
      + apply sub_ranges_apart, bucket_wf; assumption.
    - intros [s t] [s' t'] b c Hin Hin' Hlt Hb Hc. cbn [fst snd] in *.
      destruct (Hgrid s t Hin). destruct (Hgrid s' t' Hin').
      destruct (block_candidates_inside vp a s t b Ha ltac:(lia) ltac:(lia)
                  ltac:(lia) Hb) as (_ & _ & _ & Hb2).
      destruct (block_candidates_inside vp a s' t' c Ha ltac:(lia) ltac:(lia)
                  ltac:(lia) Hc) as (_ & _ & Hc1 & _).
      unfold last_of, size_of, bucket_of in *.
      cbn [network_address prefixlen] in *.
      change (2 ^ (32 - 24)) with 256 in *.
      change (2 ^ 16) with 65536 in *. change (2 ^ 8) with 256 in *.
      unfold grid_lt in Hlt. cbn [fst snd] in Hlt. lia. }
  split; [assumption |].
  assert (Hwfs : Forall wf vnets).
  { apply Forall_forall. intros c Hc. rewrite Hvnets in Hc.
    apply (octet_candidates_inside _ _ _ _ _ _ _ Hwf Hpool Ht0 Hc). }
  clear Hvnets Hiter. induction Hsorted as [| c l Hs' IH Hc]; constructor.
  - intros Hin. rewrite Forall_forall in Hc. apply Hc in Hin.
    inversion Hwfs as [| ? ? Hcw _]. pose proof (wf_last_bound c Hcw). lia.
  - apply IH. inversion Hwfs. assumption.
Qed.

Lemma iter_vnets_increasing_witness :
  StronglySorted (fun x y => last_of x < network_address y)
    [cidr 172 31 254 0 25; cidr 172 31 254 128 25;
     cidr 172 31 255 0 25; cidr 172 31 255 128 25]
  /\ NoDup [cidr 172 31 254 0 25; cidr 172 31 254 128 25;
            cidr 172 31 255 0 25; cidr 172 31 255 128 25].
Proof.
  apply (iter_vnets_increasing (cidr 172 31 0 0 16) 25 254);
    [wf_concrete | vm_compute; reflexivity].
Defined.

(** ** OctetRolloverAllocator: the search *)

(** What a plan returned by the rollover search is made of. *)
Lemma rollover_ok_inv used start_base vp a b t0 plan :
  wf start_base ->
  build_plan_with_rollover used start_base vp a b t0 = Ok plan ->
  exists vnets,
    _iter_third_then_second_octet_vnets start_base vp t0 = Ok vnets
    /\ In (vnet plan) vnets
    /\ overlaps_any (vnet plan) used = false
    /\ allocate_two_subnets (vnet plan) a b
       = Ok (webapp_subnet plan, private_endpoint_subnet plan).
Proof.
  intros Hwf H. unfold build_plan_with_rollover in H.
  destruct (_iter_third_then_second_octet_vnets start_base vp t0)
    as [vnets |] eqn:Ei; [| discriminate].
  cbn [bind] in H. exists vnets. split; [reflexivity |].
  destruct (rollover_loop used a b vnets None 0) as [p | [last1 n1]] eqn:El.
  - inversion H. subst p. apply (rollover_loop_plan _ _ _ _ _ _ _ El).
  - destruct (_pool_for_octet_search start_base) as [[pool allowed] |];
      [| discriminate].
    cbn [bind] in H. destruct (existsb _ used); [discriminate |].
    destruct last1; discriminate.
Qed.

(** The network of a plan returned by the rollover search is a candidate of
    the generator. *)
Lemma rollover_ok_candidate used start_base vp a b t0 plan :
  wf start_base ->
  build_plan_with_rollover used start_base vp a b t0 = Ok plan ->
  exists pool allowed,
    _pool_for_octet_search start_base = Ok (pool, allowed)
    /\ wf pool /\ wf (vnet plan) /\ 24 <= vp <= 32
    /\ prefixlen (vnet plan) = vp
    /\ network_address pool <= network_address (vnet plan)
    /\ last_of (vnet plan) <= last_of pool
    /\ network_address
         (bucket_of (first_octet (network_address start_base))
            (second_octet (network_address start_base)) t0)
       <= network_address (vnet plan).
Proof.
  intros Hwf H.
  destruct (rollover_ok_inv _ _ _ _ _ _ _ Hwf H)
    as (vnets & Hiter & Hin & _).
  destruct (iter_vnets_ok_inv _ _ _ _ Hwf Hiter)
    as (pool & lo & hi & Hpool & Hvp & Ht0 & Hvnets).
  exists pool, (lo, hi). split; [assumption |].
  rewrite Hvnets in Hin.
  destruct (octet_candidates_inside _ _ _ _ _ _ _ Hwf Hpool Ht0 Hin)
    as (Hv & Hv1 & Hv2).
  destruct (pool_for_octet_search_ok _ _ _ _ Hwf Hpool) as (_ & Hs & Hcase).
  assert (Hpw : wf pool).
  { destruct Hcase as [(-> & _) | (-> & _)];
      [apply ten_slash8_wf | apply one_seventy_two_slash12_wf]. }
  apply in_octet_candidates in Hin as (s & t & Hst & Hc).
  set (a0 := first_octet (network_address start_base)) in *.
  set (s0 := second_octet (network_address start_base)) in *.
  assert (Ha0 : 0 <= a0 <= 255)
    by (destruct Hcase as [(_ & _ & _ & ->) | (_ & _ & _ & ->)]; lia).
  assert (Hhi : 0 <= lo /\ hi <= 256)
    by (destruct Hcase as [(_ & -> & -> & _) | (_ & -> & -> & _)]; lia).
  destruct (block_candidates_inside vp a0 s t _ Ha0 ltac:(lia) ltac:(lia)
              ltac:(lia) Hc) as (_ & Hp & Hlow & _).
  split; [assumption |]. split; [assumption |]. split; [lia |].
  split; [assumption |]. split; [assumption |]. split; [assumption |].
  unfold bucket_of in *. cbn [network_address] in *.
  change (2 ^ 16) with 65536 in *. change (2 ^ 8) with 256 in *. lia.
Qed.

(** X15: a plan returned by the rollover search has a network of exactly the
    requested prefix length (the search never enlarges it), between 24 and
    the subnet prefix lengths; the network overlaps no used range and lies
    inside the pool, at or after the starting block, though not always
    inside the base; the subnets have the prefix lengths asked for. *)
Theorem rollover_plan_shape used start_base vp a b t0 plan :
  wf start_base ->
  build_plan_with_rollover used start_base vp a b t0 = Ok plan ->
  exists pool allowed,
    _pool_for_octet_search start_base = Ok (pool, allowed)
    /\ prefixlen (vnet plan) = vp
    /\ 24 <= vp < Z.min a b /\ Z.max a b <= 32
    /\ subnet_of (vnet plan) pool = true
    /\ overlaps_any (vnet plan) used = false
    /\ network_address
         (bucket_of (first_octet (network_address start_base))
            (second_octet (network_address start_base)) t0)
       <= network_address (vnet plan)
    /\ prefixlen (webapp_subnet plan) = a
    /\ prefixlen (private_endpoint_subnet plan) = b.
Proof.
  intros Hwf H.
  destruct (rollover_ok_candidate _ _ _ _ _ _ _ Hwf H)
    as (pool & allowed & Hpool & Hpw & Hv & Hvp & Hp & Hv1 & Hv2 & Hstart).
  destruct (rollover_ok_inv _ _ _ _ _ _ _ Hwf H)
    as (vnets & _ & _ & Hfree & Ha).
  exists pool, allowed. split; [assumption |].
  destruct (allocate_cases (vnet plan) a b Hv)
    as [(_ & E) | [(_ & _ & _ & E) | [(_ & _ & E) | (Hmin & Hmax & E)]]];
    rewrite E in Ha; try discriminate.
  split; [assumption |]. split; [lia |]. split; [assumption |].
  split; [apply subnet_of_intervals; auto |]. split; [assumption |].
  split; [assumption |].
  destruct (Z.eqb_spec (Z.min a b) a); inversion Ha as [[Hw Hpe]];
    cbn [prefixlen]; lia.
Qed.

Lemma rollover_plan_shape_witness :
  let plan :=
    mkPlan (cidr 172 17 0 0 24) (cidr 172 17 0 0 27) (cidr 172 17 0 32 27) in
  exists pool allowed,
    _pool_for_octet_search (cidr 172 16 0 0 16) = Ok (pool, allowed)
    /\ prefixlen (vnet plan) = 24
    /\ 24 <= 24 < Z.min 27 27 /\ Z.max 27 27 <= 32
    /\ subnet_of (vnet plan) pool = true
    /\ overlaps_any (vnet plan) [cidr 172 16 0 0 16] = false
    /\ network_address
         (bucket_of (first_octet (network_address (cidr 172 16 0 0 16)))
            (second_octet (network_address (cidr 172 16 0 0 16))) 1)
       <= network_address (vnet plan)
    /\ prefixlen (webapp_subnet plan) = 27
    /\ prefixlen (private_endpoint_subnet plan) = 27.
Proof.
  apply (rollover_plan_shape [cidr 172 16 0 0 16] (cidr 172 16 0 0 16)
           24 27 27 1);
    [wf_concrete | vm_compute; reflexivity].
Defined.

(** X16: once the generator's arguments are valid, the rollover search
    raises nothing but a [RuntimeError]: the packer's errors are recorded,
    not raised; and when a subnet prefix length is not above the requested
    prefix length, or exceeds 32, the search always fails. *)
Theorem rollover_errors used start_base vp a b t0 vnets :
  wf start_base ->
  _iter_third_then_second_octet_vnets start_base vp t0 = Ok vnets ->
  (forall e,
      build_plan_with_rollover used start_base vp a b t0 = Err e ->
      exists why, e = RuntimeError why)
  /\ (Z.min a b <= vp \/ 32 < Z.max a b ->
      exists why,
        build_plan_with_rollover used start_base vp a b t0
        = Err (RuntimeError why)).
Proof.
  intros Hwf Hiter.
  assert (Herr : forall e,
    build_plan_with_rollover used start_base vp a b t0 = Err e ->
    exists why, e = RuntimeError why).
  { intros e H. unfold build_plan_with_rollover in H.
    rewrite Hiter in H. cbn [bind] in H.
    destruct (rollover_loop used a b vnets None 0) as [p | [last1 n1]];
      [discriminate |].
    destruct (iter_vnets_ok_inv _ _ _ _ Hwf Hiter)
      as (pool & lo & hi & Hpool & _).
    rewrite Hpool in H. cbn [bind] in H.
    destruct (existsb _ used); [inversion H; eauto |].
    destruct last1; inversion H; eauto. }
  split; [exact Herr |].
  intros Hbad.
  destruct (build_plan_with_rollover used start_base vp a b t0)
    as [plan | e] eqn:E.
  - exfalso.
    destruct (rollover_ok_candidate _ _ _ _ _ _ _ Hwf E)
      as (_ & _ & _ & _ & Hv & _ & Hp & _).
    destruct (rollover_ok_inv _ _ _ _ _ _ _ Hwf E) as (_ & _ & _ & _ & Ha).
    destruct (allocate_cases (vnet plan) a b Hv)
      as [(_ & E') | [(_ & _ & _ & E') | [(_ & _ & E') | (Hmin & Hmax & _)]]];
      try (rewrite E' in Ha; discriminate).
    lia.
  - destruct (Herr e eq_refl) as (why & ->). eauto.
Qed.

Lemma rollover_errors_witness :
  exists why,
    build_plan_with_rollover [] (cidr 172 31 0 0 16) 24 24 27 254
    = Err (RuntimeError why).
Proof.
  destruct (rollover_errors [] (cidr 172 31 0 0 16) 24 24 27 254 _
              ltac:(wf_concrete) eq_refl) as (_ & H).
  apply H. lia.
Defined.

Lemma rollover_loop_first_free used a b vnets last0 n0 :
  (forall v, In v vnets -> overlaps_any v used = false ->
             exists webapp pe, allocate_two_subnets v a b = Ok (webapp, pe)) ->
  match find (fun v => negb (overlaps_any v used)) vnets with
  | Some v =>
      exists webapp pe,
        allocate_two_subnets v a b = Ok (webapp, pe)
        /\ rollover_loop used a b vnets last0 n0 = inl (mkPlan v webapp pe)
  | None =>
      rollover_loop used a b vnets last0 n0
      = inr (last0, n0 + Z.of_nat (length vnets))
  end.
Proof.
  revert n0. induction vnets as [| v rest IH]; intros n0 Hpack;
    cbn [find rollover_loop].
  - cbn. do 2 f_equal. lia.
  - destruct (overlaps_any v used) eqn:Eo; cbn [negb].
    + specialize (IH (n0 + 1) ltac:(intros; apply Hpack; auto; now right)).
      destruct (find _ rest) as [x |].
      * exact IH.
      * rewrite IH. cbn [length]. do 2 f_equal. lia.
    + destruct (Hpack v ltac:(now left) Eo) as (w & pe & Hok).
      exists w, pe. rewrite Hok. auto.
Qed.

(** X17: when both subnet prefix lengths are above the requested prefix
    length and at most 32, the rollover search returns the first candidate
    that overlaps no used range, packed; when every candidate overlaps a used
    range it fails with a [RuntimeError] and no packing error to report. *)
Theorem rollover_first_free used start_base vp a b t0 vnets :
  wf start_base ->
  _iter_third_then_second_octet_vnets start_base vp t0 = Ok vnets ->
  vp < Z.min a b -> Z.max a b <= 32 ->
  (forall v,
      find (fun c => negb (overlaps_any c used)) vnets = Some v ->
      exists webapp pe,
        allocate_two_subnets v a b = Ok (webapp, pe)
        /\ build_plan_with_rollover used start_base vp a b t0
           = Ok (mkPlan v webapp pe))
  /\ (find (fun c => negb (overlaps_any c used)) vnets = None ->
      last_packing_error used a b vnets = None
      /\ exists why,
           build_plan_with_rollover used start_base vp a b t0
           = Err (RuntimeError why)).
Proof.
  intros Hwf Hiter Hmin Hmax.
  destruct (iter_vnets_ok_inv _ _ _ _ Hwf Hiter)
    as (pool & lo & hi & Hpool & Hvp & Ht0 & Hvnets).
  assert (Hpack : forall v, In v vnets -> overlaps_any v used = false ->
            exists webapp pe, allocate_two_subnets v a b = Ok (webapp, pe)).
  { intros v Hin _. pose proof Hin as Hin'. rewrite Hvnets in Hin'.
    destruct (octet_candidates_inside _ _ _ _ _ _ _ Hwf Hpool Ht0 Hin')
      as (Hv & _).
    apply in_octet_candidates in Hin' as (s & t & Hst & Hc).
    destruct (pool_for_octet_search_ok _ _ _ _ Hwf Hpool) as (_ & Hs & Hcase).
    assert (Ha0 : 0 <= first_octet (network_address start_base) <= 255)
      by (destruct Hcase as [(_ & _ & _ & ->) | (_ & _ & _ & ->)]; lia).
    assert (Hhi : 0 <= lo /\ hi <= 256)
      by (destruct Hcase as [(_ & -> & -> & _) | (_ & -> & -> & _)]; lia).
    destruct (block_candidates_inside vp _ s t v Ha0 ltac:(lia) ltac:(lia)
                ltac:(lia) Hc) as (_ & Hp & _).
    rewrite allocate_fits by (assumption || lia). cbn zeta.
    destruct (Z.min a b =? a); eauto. }
  pose proof (rollover_loop_first_free used a b vnets None 0 Hpack) as Hloop.
  split.
  - intros v Hfind. rewrite Hfind in Hloop.
    destruct Hloop as (w & pe & Hok & Hl). exists w, pe.
    split; [assumption |].
    unfold build_plan_with_rollover. rewrite Hiter. cbn [bind].
    rewrite Hl. reflexivity.
  - intros Hfind. rewrite Hfind in Hloop.
    destruct (rollover_loop_exhausted _ _ _ _ _ _ _ _ Hloop) as (_ & Hlast).
    split; [symmetry; exact Hlast |].
    unfold build_plan_with_rollover. rewrite Hiter. cbn [bind].
    rewrite Hloop, Hpool. cbn [bind].
    destruct (existsb _ used); eauto.
Qed.

Lemma rollover_first_free_witness :
  exists webapp pe,
    allocate_two_subnets (cidr 172 31 255 0 24) 27 26 = Ok (webapp, pe)
    /\ build_plan_with_rollover [cidr 172 31 254 0 24] (cidr 172 31 0 0 16)
         24 27 26 254
       = Ok (mkPlan (cidr 172 31 255 0 24) webapp pe).
Proof.
  destruct (rollover_first_free [cidr 172 31 254 0 24] (cidr 172 31 0 0 16)
              24 27 26 254 _ ltac:(wf_concrete) eq_refl
              ltac:(lia) ltac:(lia)) as (H & _).
  apply H. vm_compute. reflexivity.
Defined.

(** * The sizing and the choice of strategy in [main]

    What [main] does between reading the used ranges and printing the plan:
    it settles the three prefix lengths from the parsed arguments and calls
    the allocator of the chosen strategy.  The used ranges are an argument
    here; reading them and printing are left out. *)

Module Main.

(** The choices of [--search-strategy]. *)
Inductive strategy : Type := octets | base_only.

(** The parsed arguments the planning reads. *)
Record Args : Type := mkArgs {
  base : IPv4Network;
  start_third_octet : Z;
  search_strategy : strategy;
  vnet_prefix : Z;
  webapp_subnet_prefix : Z;
  private_endpoint_subnet_prefix : Z;
  webapp_ips : option Z;
  private_endpoint_ips : option Z;
  cosmos_ips : option Z;
  vnet_ips : option Z
}.

(** What the planning in [main] can raise: an exception of the planner, or
    the failure of [2 ** (32 - prefix)] summed and passed on as a float when
    a prefix length given on the command line exceeds 32 (an
    [AttributeError] on [bit_length], or an [OverflowError] for a prefix
    length too large to convert). *)
Inductive main_exn : Type :=
| Raised (e : exn)
| FloatTotal.

Inductive outcome (A : Type) : Type :=
| Done (a : A)
| Failed (e : main_exn).

Arguments Done {A} a.
Arguments Failed {A} e.

Definition planner {A : Type} (r : result A) : outcome A :=
  match r with
  | Ok a => Done a
  | Err e => Failed (Raised e)
  end.

Definition obind {A B : Type} (r : outcome A) (k : A -> outcome B)
  : outcome B :=
  match r with
  | Done a => k a
  | Failed e => Failed e
  end.

Notation "x <-- r ;; k" := (obind r (fun x => k))
  (at level 61, r at next level, right associativity).

(** The prefix lengths [(vnet_prefix_len, webapp_prefix_len, pe_prefix_len)]
    that [main] passes to the allocator. *)
Definition main_sizing (args : Args) : outcome (Z * Z * Z) :=
  webapp_prefix_len <--
    match webapp_ips args with
    | Some n => planner (subnet_prefix_len_for_usable_ips n)
    | None => Done (webapp_subnet_prefix args)
    end ;;
  let pe_usable_ips :=
    match private_endpoint_ips args with
    | Some n => Some n
    | None => cosmos_ips args
    end in
  pe_prefix_len <--
    match pe_usable_ips with
    | Some n => planner (subnet_prefix_len_for_usable_ips n)
    | None => Done (private_endpoint_subnet_prefix args)
    end ;;
  let using_ip_sizing :=
    match webapp_ips args, pe_usable_ips with
    | None, None => false
    | _, _ => true
    end in
  vnet_prefix_len <--
    match vnet_ips args with
    | Some n => planner (prefix_len_for_total_addresses n)
    | None =>
        if using_ip_sizing
        then
          if (32 <? webapp_prefix_len) || (32 <? pe_prefix_len)
          then Failed FloatTotal
          else
            let web_total := 2 ^ (32 - webapp_prefix_len) in
            let pe_total := 2 ^ (32 - pe_prefix_len) in
            planner (prefix_len_for_total_addresses (web_total + pe_total))
        else Done (vnet_prefix args)
    end ;;
  Done (vnet_prefix_len, webapp_prefix_len, pe_prefix_len).

(** The plan [main] prints. *)
Definition main_plan (args : Args) (used : list IPv4Network) : outcome Plan :=
  sizes <-- main_sizing args ;;
  let '(vnet_prefix_len, webapp_prefix_len, pe_prefix_len) := sizes in
  match search_strategy args with
  | base_only =>
      planner (build_plan used (base args) vnet_prefix_len webapp_prefix_len
                 pe_prefix_len)
  | octets =>
      planner (build_plan_with_rollover used (base args) vnet_prefix_len
                 webapp_prefix_len pe_prefix_len (start_third_octet args))
  end.

(** The sizing is by IP counts: a count is given for a subnet and none for
    the network. *)
Definition sized_by_ips (args : Args) : Prop :=
  vnet_ips args = None
  /\ (webapp_ips args <> None \/ private_endpoint_ips args <> None
      \/ cosmos_ips args <> None).

Lemma sizing_by_ips_inv args vp a b :
  sized_by_ips args -> main_sizing args = Done (vp, a, b) ->
  a <= 32 /\ b <= 32
  /\ prefix_len_for_total_addresses (2 ^ (32 - a) + 2 ^ (32 - b)) = Ok vp.
Proof.
  intros (Hv & Hips) H. unfold main_sizing in H. rewrite Hv in H.
  set (w := match webapp_ips args with
            | Some n => planner (subnet_prefix_len_for_usable_ips n)
            | None => Done (webapp_subnet_prefix args)
            end) in H.
  destruct w as [wp | e]; [| discriminate]. cbn [obind] in H.
  set (pu := match private_endpoint_ips args with
             | Some n => Some n
             | None => cosmos_ips args
             end) in H.
  set (q := match pu with
            | Some n => planner (subnet_prefix_len_for_usable_ips n)
            | None => Done (private_endpoint_subnet_prefix args)
            end) in H.
  destruct q as [pp | e]; [| discriminate]. cbn [obind] in H.
  assert (Husing : match webapp_ips args, pu with
                   | None, None => false
                   | _, _ => true
                   end = true).
  { subst pu. destruct (webapp_ips args); [reflexivity |].
    destruct (private_endpoint_ips args); [reflexivity |].
    destruct (cosmos_ips args); [reflexivity |].
    destruct Hips as [Hc | [Hc | Hc]]; congruence. }
  rewrite Husing in H.
  destruct ((32 <? wp) || (32 <? pp)) eqn:Efloat; [discriminate |].
  apply orb_false_iff in Efloat as (E1 & E2). apply Z.ltb_ge in E1, E2.
  cbn zeta in H.
  destruct (prefix_len_for_total_addresses (2 ^ (32 - wp) + 2 ^ (32 - pp)))
    as [v |] eqn:Ev; [| discriminate].
  cbn [planner obind] in H. inversion H. subst. auto.
Qed.

Lemma sizing_by_ips_bounds args vp a b :
  sized_by_ips args -> main_sizing args = Done (vp, a, b) ->
  0 <= vp < Z.min a b /\ Z.max a b <= 32
  /\ size_of a + size_of b <= size_of vp < 2 * (size_of a + size_of b).
Proof.
  intros Hips H.
  destruct (sizing_by_ips_inv _ _ _ _ Hips H) as (Ha & Hb & Hv).
  apply prefix_len_inv in Hv as (Hn & Hbl & ->).
  fold (size_of a) in *. fold (size_of b) in *.
  set (n := size_of a + size_of b) in *.
  pose proof (size_of_pos a Ha) as Hsa. pose proof (size_of_pos b Hb) as Hsb.
  pose proof (bit_length_nonneg (n - 1)) as Hbn.
  destruct (bit_length_pred_spec n Hn) as (Hfit & _).
  assert (Hlt : forall x, x <= 32 -> size_of x < 2 ^ bit_length (n - 1) ->
                  32 - bit_length (n - 1) < x).
  { intros x Hx Hlt. unfold size_of in Hlt.
    apply Z.pow_lt_mono_r_iff in Hlt; lia. }
  pose proof (Hlt a Ha ltac:(lia)). pose proof (Hlt b Hb ltac:(lia)).
  split; [lia |]. split; [lia |].
  replace (size_of (32 - bit_length (n - 1))) with (2 ^ bit_length (n - 1))
    by (unfold size_of; f_equal; lia).
  apply pow2_bit_length_tight. assumption.
Qed.

(** X18: when [main] sizes by IP counts, the network prefix length it
    settles on is below both subnet prefix lengths, which are at most 32,
    and the network is the smallest power of two that holds both subnets;
    so the packer succeeds in every well-formed network of that prefix
    length. *)
Theorem main_sizing_by_ips args vp a b :
  sized_by_ips args -> main_sizing args = Done (vp, a, b) ->
  0 <= vp < Z.min a b /\ Z.max a b <= 32
  /\ size_of a + size_of b <= size_of vp < 2 * (size_of a + size_of b)
  /\ (forall vnet,
         wf vnet -> prefixlen vnet = vp ->
         exists webapp pe, allocate_two_subnets vnet a b = Ok (webapp, pe)).
Proof.
  intros Hips H.
  destruct (sizing_by_ips_bounds _ _ _ _ Hips H) as (Hvp & Hmax & Hsize).
  split; [assumption |]. split; [assumption |]. split; [assumption |].
  intros vnet Hwf Hp. rewrite allocate_fits by (assumption || lia).
  cbn zeta. destruct (Z.min a b =? a); eauto.
Qed.

Lemma main_sizing_by_ips_witness :
  0 <= 25 < Z.min 26 27 /\ Z.max 26 27 <= 32
  /\ size_of 26 + size_of 27 <= size_of 25 < 2 * (size_of 26 + size_of 27)
  /\ (forall vnet,
         wf vnet -> prefixlen vnet = 25 ->
         exists webapp pe, allocate_two_subnets vnet 26 27 = Ok (webapp, pe)).
Proof.
  apply (main_sizing_by_ips
           (mkArgs (cidr 172 16 0 0 16) 1 octets 24 27 27
              (Some 40) None None None)).
  - split; [reflexivity |]. left. discriminate.
  - vm_compute. reflexivity.
Defined.

(** X19: with the strategy [base] and the sizing by IP counts, on a
    well-formed base and well-formed used ranges, [main] plans in the first
    free range of the base at the prefix length it settled on, without
    enlarging it, and fails with "unable to allocate" exactly when the base
    has no free range of that size. *)
Theorem main_plan_base_by_ips args used vp a b :
  search_strategy args = base_only -> sized_by_ips args ->
  wf (base args) -> Forall wf used ->
  main_sizing args = Done (vp, a, b) ->
  (forall v,
      first_free_subnet (base args) vp used = Ok v ->
      exists webapp pe,
        allocate_two_subnets v a b = Ok (webapp, pe)
        /\ main_plan args used = Done (mkPlan v webapp pe))
  /\ ((forall v, first_free_subnet (base args) vp used <> Ok v) ->
      main_plan args used = Failed (Raised (RuntimeError NoVNetSizeWorks))).
Proof.
  intros Hstrat Hips Hwf Hused H.
  destruct (sizing_by_ips_bounds _ _ _ _ Hips H) as (Hvp & Hmax & _).
  assert (Hplan : main_plan args used
                  = planner (build_plan used (base args) vp a b))
    by (unfold main_plan; rewrite H, Hstrat; reflexivity).
  rewrite Hplan.
  destruct (Z.lt_ge_cases vp (prefixlen (base args))) as [Hlt | Hge].
  - split.
    + intros v Hv.
      rewrite first_free_subnet_too_large in Hv by assumption. discriminate.
    + intros _. unfold build_plan. rewrite py_range_down.
      replace (Z.to_nat (vp - (prefixlen (base args) - 1))) with 0%nat by lia.
      reflexivity.
  - split.
    + intros v Hv.
      destruct (build_plan_fits_first used (base args) vp a b v Hwf
                  ltac:(lia) Hmax Hv) as (w & pe & Hok & Hbp).
      exists w, pe. rewrite Hbp. auto.
    + intros Hno.
      rewrite (build_plan_fits_none used (base args) vp a b Hwf Hused
                 ltac:(lia) Hno).
      reflexivity.
Qed.

Lemma main_plan_base_by_ips_witness :
  exists webapp pe,
    allocate_two_subnets (cidr 172 16 0 128 25) 26 27 = Ok (webapp, pe)
    /\ main_plan
         (mkArgs (cidr 172 16 0 0 16) 1 base_only 24 27 27
            (Some 40) None None None)
         [cidr 172 16 0 0 25]
       = Done (mkPlan (cidr 172 16 0 128 25) webapp pe).
Proof.
  assert (Hused : Forall wf [cidr 172 16 0 0 25])
    by (repeat constructor; cbn; lia).
  destruct (main_plan_base_by_ips
              (mkArgs (cidr 172 16 0 0 16) 1 base_only 24 27 27
                 (Some 40) None None None)
              [cidr 172 16 0 0 25] 25 26 27 eq_refl
              ltac:(split; [reflexivity | left; discriminate])
              ltac:(wf_concrete) Hused eq_refl) as (H & _).
  apply H. vm_compute. reflexivity.
Defined.

(** X20: with the strategy [octets] and the sizing by IP counts, [main]
    fails with the generator's "prefix must be /24 or smaller" error
    whenever the two subnets together need more than 256 addresses. *)
Theorem main_plan_octets_by_ips args used vp a b :
  search_strategy args = octets -> sized_by_ips args ->
  main_sizing args = Done (vp, a, b) ->
  256 < size_of a + size_of b ->
  main_plan args used = Failed (Raised (ValueError OctetSearchVNetTooLarge)).
Proof.
  intros Hstrat Hips H Hbig.
  destruct (sizing_by_ips_bounds _ _ _ _ Hips H) as (Hvp & _ & Hsize & _).
  assert (Hlt : vp < 24).
  { destruct (Z.lt_ge_cases vp 24) as [| Hge]; [assumption |]. exfalso.
    assert (size_of vp <= size_of 24)
      by (unfold size_of; apply Z.pow_le_mono_r; lia).
    change (size_of 24) with 256 in *. lia. }
  unfold main_plan. rewrite H, Hstrat. cbn [obind].
  unfold build_plan_with_rollover.
  rewrite iter_vnets_too_large by assumption. reflexivity.
Qed.

Lemma main_plan_octets_by_ips_witness :
  main_plan
    (mkArgs (cidr 172 16 0 0 16) 1 octets 24 27 27 (Some 124) None None None)
    []
  = Failed (Raised (ValueError OctetSearchVNetTooLarge)).
Proof.
  apply (main_plan_octets_by_ips _ [] 23 24 27).
  - reflexivity.
  - split; [reflexivity |]. left. discriminate.
  - vm_compute. reflexivity.
  - vm_compute. reflexivity.
Defined.

End Main.
